(** * Royalty ledger: play recording, distribution, payment and LMK reporting

    A shallow embedding of the royalty core of the server:

    - [Music] follows the Music model (the schema fields the royalty
      routes read, [isAvailableForBusiness], [calculateRoyalty]);
    - [RoyaltyTransaction] follows [server/models/RoyaltyTransaction.js]
      (schema, validation, [calculateTotalRoyalty], [isPaymentOverdue],
      [getPendingLMKReports]);
    - [Mongo] gives the update documents the routes hand to the driver
      and their effect on a stored transaction;
    - [Routes] follows [POST /play] and [POST /process-payment] of the
      royalty routes, the latter with its deferred completion callback,
      and gives the states their interleaved runs reach;
    - [Sample] is a run of the routes on one work, [Runs] and [Overlap]
      are schedules of its requests, and [Ledger] holds the predicates
      the properties are stated with.

    Numbers are JavaScript Numbers, that is IEEE 754 binary64 values: they
    are primitive floats, with the operations of the processor.  Dates are
    their time value, an integral number of milliseconds, in [Z]. *)

From Stdlib Require Import ZArith List String Ascii Bool Floats QArith Lia.
From Stdlib Require Import DecimalString Relations Permutation.
Import ListNotations.

Set Warnings "-inexact-float".

Local Close Scope Q_scope.
Local Open Scope string_scope.
Local Open Scope list_scope.

(** ** JavaScript values *)

Module Js.

(** A MongoDB ObjectId, as its hexadecimal string: 24 digits, the
    letters in lower case.  The [musicId] of a play is such an id; the
    [transactionIds] of a payment request are strings the driver casts
    before it queries ([castObjectId]). *)
Definition ObjectId := string.

(** The time value of a [Date]: milliseconds since the epoch. *)
Definition Date := Z.

(** [a || b] on a Number operand: [0], [-0] and [NaN] are falsy. *)
Definition falsy_number (x : float) : bool :=
  PrimFloat.is_nan x || PrimFloat.eqb x 0%float.

Definition or_number (a b : float) : float :=
  if falsy_number a then b else a.

(** [a || b] where [a] may be undefined. *)
Definition or_undefined_number (a : option float) (b : float) : float :=
  match a with
  | Some x => or_number x b
  | None => b
  end.

(** [a || b] on strings that may be undefined: the empty string is
    falsy. *)
Definition or_string (a b : option string) : option string :=
  match a with
  | Some "" => b
  | Some s => Some s
  | None => b
  end.

(** [!s] for a string that may be undefined. *)
Definition not_string (a : option string) : bool :=
  match a with
  | Some "" => true
  | Some _ => false
  | None => true
  end.

(** [s.slice(-n)]: the last [n] characters, the whole string when it is
    shorter. *)
Definition slice_last (n : nat) (s : string) : string :=
  substring (String.length s - n) n s.

(** [`${z}`] for an integral Number. *)
Definition string_of_Z (z : Z) : string :=
  NilEmpty.string_of_int (Z.to_int z).

(** [xs.includes(x)] on an array of strings. *)
Definition includes (xs : list string) (x : string) : bool :=
  existsb (String.eqb x) xs.

(** [xs.includes(x)] where [x] may be undefined, which no string is. *)
Definition includes_undefined (xs : list string) (x : option string)
  : bool :=
  match x with
  | Some x => includes xs x
  | None => false
  end.

(** A hexadecimal digit, of either case. *)
Definition is_hex (c : ascii) : bool :=
  let n := nat_of_ascii c in
  (Nat.leb 48 n && Nat.leb n 57)
  || (Nat.leb 65 n && Nat.leb n 70)
  || (Nat.leb 97 n && Nat.leb n 102).

(** The digit as [toHexString] prints it. *)
Definition lower_hex (c : ascii) : ascii :=
  let n := nat_of_ascii c in
  if Nat.leb 65 n && Nat.leb n 70 then ascii_of_nat (n + 32) else c.

Fixpoint lower (s : string) : string :=
  match s with
  | EmptyString => EmptyString
  | String c rest => String (lower_hex c) (lower rest)
  end.

(** The cast of a string to an ObjectId: a string of 24 hexadecimal
    digits is the id it spells, whatever the case of its letters; on
    any other string the driver throws (a CastError of the query).
    This is the driver of today; older ones also took any string of 12
    bytes for the id with those bytes. *)
Definition castObjectId (value : string) : option ObjectId :=
  if Nat.eqb (String.length value) 24
     && forallb is_hex (list_ascii_of_string value)
  then Some (lower value)
  else None.

(** The cast of the array under [$in]: it throws when the cast of an
    element does. *)
Fixpoint castObjectIds (values : list string) : option (list ObjectId) :=
  match values with
  | [] => Some []
  | value :: rest =>
      match castObjectId value, castObjectIds rest with
      | Some id, Some ids => Some (id :: ids)
      | _, _ => None
      end
  end.

End Js.

(** ** The Music model *)

Module Music.

Record RightsHolder := {
  name : option string;
  lmkMemberNumber : option string;
  sharePercentage : float
}.

Record RoyaltyRate := {
  mechanical : float;
  performance : float;
  synchronization : float
}.

Record LmkInfo := {
  publishers : list RightsHolder;
  composers : list RightsHolder;
  lyricists : list RightsHolder;
  complianceStatus : string;
  royaltyRate : RoyaltyRate
}.

(** The counters are integral; [lastPlayed] is unset until a play. *)
Record Analytics := {
  totalPlays : Z;
  businessPlays : Z;
  lastPlayed : option Js.Date
}.

(** A Music document.  [artist] is the populated reference: [None] when
    the referenced user no longer exists. *)
Record Doc := {
  _id : Js.ObjectId;
  artist : option Js.ObjectId;
  duration : float;
  lmkInfo : LmkInfo;
  allowedBusinessTypes : list string;
  analytics : Analytics;
  status : string;
  isActive : bool
}.

Definition isAvailableForBusiness (this : Doc)
           (businessType : option string) : bool :=
  if negb (isActive this) || negb (String.eqb (status this) "published")
  then false
  else if negb (String.eqb (complianceStatus (lmkInfo this)) "approved")
  then false
  else (Nat.eqb (List.length (allowedBusinessTypes this)) 0
        || Js.includes_undefined (allowedBusinessTypes this)
                                 businessType).

(** [calculateRoyalty(playType = 'background')]: the argument is [None]
    when the caller passes undefined. *)
Definition calculateRoyalty (this : Doc) (playType : option string)
  : float :=
  let playType := match playType with
                  | Some p => p
                  | None => "background"
                  end in
  let baseRate := royaltyRate (lmkInfo this) in
  if String.eqb playType "commercial" then synchronization baseRate
  else if String.eqb playType "performance" then performance baseRate
  else mechanical baseRate.

Definition with_analytics (a : Analytics) (m : Doc) : Doc :=
  {| _id := _id m; artist := artist m; duration := duration m;
     lmkInfo := lmkInfo m; allowedBusinessTypes := allowedBusinessTypes m;
     analytics := a; status := status m; isActive := isActive m |}.

End Music.

(** ** The RoyaltyTransaction model *)

Module RoyaltyTransaction.

Record Location := {
  businessName : option string;
  address : option string;
  city : option string;
  province : option string
}.

Record DeviceInfo := {
  deviceId : option string;
  ipAddress : option string;
  userAgent : option string
}.

Record PlayInfo := {
  playType : string;
  playDate : Js.Date;
  duration : float;
  location : Location;
  deviceInfo : option DeviceInfo
}.

(** [{ amount, percentage }], of the artist and of the two fees. *)
Module Share.
Record t := { amount : float; percentage : float }.
End Share.

(** An element of [publishers], [composers] or [lyricists]. *)
Module Holder.
Record t := {
  lmkMemberNumber : option string;
  name : option string;
  amount : float;
  percentage : float
}.
End Holder.

Module Distribution.
Record t := {
  artist : Share.t;
  publishers : list Holder.t;
  composers : list Holder.t;
  lyricists : list Holder.t;
  lmkFee : Share.t;
  platformFee : Share.t
}.
End Distribution.

Record RoyaltyInfo := {
  baseRate : float;
  calculatedAmount : float;
  currency : string;
  distribution : Distribution.t
}.

(** The statuses are the strings of the schema's enums. *)
Record LmkCompliance := {
  reportingStatus : string;
  reportedToLMK : option Js.Date
}.

Record PaymentInfo := {
  status : string;
  paymentDate : option Js.Date;
  paymentMethod : string;
  transactionId : option string
}.

(** The [details] of an audit entry.  The text the payment route builds
    from a template keeps its interpolated Number as a Number. *)
Inductive Details :=
| Text (s : string)
| PaymentInitiatedFor (amount : float).

(** An element of [verification.auditTrail]: every field but the
    defaulted [timestamp] may be absent. *)
Record AuditEntry := {
  action : option string;
  performedBy : option Js.ObjectId;
  timestamp : Js.Date;
  details : option Details
}.

Record Doc := {
  _id : Js.ObjectId;
  music : Js.ObjectId;
  business : Js.ObjectId;
  artist : Js.ObjectId;
  playInfo : PlayInfo;
  royaltyInfo : RoyaltyInfo;
  lmkCompliance : LmkCompliance;
  paymentInfo : PaymentInfo;
  auditTrail : list AuditEntry;   (* verification.auditTrail *)
  source : string;                (* metadata.source *)
  createdAt : Js.Date;
  updatedAt : Js.Date
}.

(** *** Schema validation, run by [save] *)

Definition playType_enum : list string :=
  ["background"; "foreground"; "commercial"; "promotional"].

(** A Number path accepts every Number but [NaN]. *)
Definition number_ok (x : float) : bool := negb (PrimFloat.is_nan x).

Definition share_ok (s : Share.t) : bool :=
  number_ok (Share.amount s) && number_ok (Share.percentage s).

Definition holder_ok (h : Holder.t) : bool :=
  number_ok (Holder.amount h) && number_ok (Holder.percentage h).

Definition distribution_ok (d : Distribution.t) : bool :=
  share_ok (Distribution.artist d)
  && forallb holder_ok (Distribution.publishers d)
  && forallb holder_ok (Distribution.composers d)
  && forallb holder_ok (Distribution.lyricists d)
  && share_ok (Distribution.lmkFee d)
  && share_ok (Distribution.platformFee d).

Definition validate (this : Doc) : bool :=
  Js.includes playType_enum (playType (playInfo this))
  && number_ok (duration (playInfo this))
  && number_ok (baseRate (royaltyInfo this))
  && number_ok (calculatedAmount (royaltyInfo this))
  && distribution_ok (distribution (royaltyInfo this)).

(** *** Methods and statics *)

Definition calculateTotalRoyalty (this : Doc) : float :=
  let distribution := distribution (royaltyInfo this) in
  let total :=
    Js.or_number (Share.amount (Distribution.artist distribution)) 0 in
  let sum_amounts (hs : list Holder.t) : float :=
    fold_left (fun sum h => (sum + Js.or_number (Holder.amount h) 0)%float)
              hs 0%float in
  let total := (total + sum_amounts (Distribution.publishers distribution))%float in
  let total := (total + sum_amounts (Distribution.composers distribution))%float in
  let total := (total + sum_amounts (Distribution.lyricists distribution))%float in
  total.

(** The sum of the amounts of a list of payees, and the sum of every
    amount of a distribution, the two fees included (the method above
    leaves them out): what a play disburses in all. *)
Definition sum_amounts (hs : list Holder.t) : float :=
  fold_left (fun sum h => (sum + Holder.amount h)%float) hs 0%float.

Definition total_disbursed (d : Distribution.t) : float :=
  (Share.amount (Distribution.artist d)
   + sum_amounts (Distribution.publishers d)
   + sum_amounts (Distribution.composers d)
   + sum_amounts (Distribution.lyricists d)
   + Share.amount (Distribution.lmkFee d)
   + Share.amount (Distribution.platformFee d))%float.

(** [isPaymentOverdue()], with the clock reading [new Date()] as an
    argument.  The difference of two time values is an integer; its
    quotient by the milliseconds of a day is taken exactly.  (Rounding
    to binary64 is monotone and leaves 30 fixed, and the quotient of an
    integer by 86400000, when it is not 30, is at least 1/86400000 away
    from 30, far more than the spacing of binary64 values there: the
    processor's comparison with 30 gives the same answer.) *)
Definition isPaymentOverdue (now : Js.Date) (this : Doc) : bool :=
  if String.eqb (status (paymentInfo this)) "completed" then false
  else
    let daysSincePlay :=
      (inject_Z (now - playDate (playInfo this))
       / inject_Z (1000 * 60 * 60 * 24))%Q in
    negb (Qle_bool daysSincePlay (inject_Z 30)).

(** [getPendingLMKReports()], as the query over the collection. *)
Definition getPendingLMKReports (collection : list Doc) : list Doc :=
  filter (fun t =>
            String.eqb (reportingStatus (lmkCompliance t)) "pending"
            && String.eqb (status (paymentInfo t)) "completed")
         collection.

(** *** Writing one path of a stored document *)

Definition with_paymentInfo (p : PaymentInfo) (t : Doc) : Doc :=
  {| _id := _id t; music := music t; business := business t;
     artist := artist t; playInfo := playInfo t;
     royaltyInfo := royaltyInfo t; lmkCompliance := lmkCompliance t;
     paymentInfo := p; auditTrail := auditTrail t; source := source t;
     createdAt := createdAt t; updatedAt := updatedAt t |}.

Definition with_lmkCompliance (c : LmkCompliance) (t : Doc) : Doc :=
  {| _id := _id t; music := music t; business := business t;
     artist := artist t; playInfo := playInfo t;
     royaltyInfo := royaltyInfo t; lmkCompliance := c;
     paymentInfo := paymentInfo t; auditTrail := auditTrail t;
     source := source t; createdAt := createdAt t;
     updatedAt := updatedAt t |}.

Definition with_auditTrail (l : list AuditEntry) (t : Doc) : Doc :=
  {| _id := _id t; music := music t; business := business t;
     artist := artist t; playInfo := playInfo t;
     royaltyInfo := royaltyInfo t; lmkCompliance := lmkCompliance t;
     paymentInfo := paymentInfo t; auditTrail := l; source := source t;
     createdAt := createdAt t; updatedAt := updatedAt t |}.

Definition with_updatedAt (d : Js.Date) (t : Doc) : Doc :=
  {| _id := _id t; music := music t; business := business t;
     artist := artist t; playInfo := playInfo t;
     royaltyInfo := royaltyInfo t; lmkCompliance := lmkCompliance t;
     paymentInfo := paymentInfo t; auditTrail := auditTrail t;
     source := source t; createdAt := createdAt t; updatedAt := d |}.

End RoyaltyTransaction.

(** ** Update documents *)

Module Mongo.

Import RoyaltyTransaction.

(** The paths of a RoyaltyTransaction the routes write. *)
Inductive Path :=
| paymentInfo_status
| paymentInfo_paymentDate
| paymentInfo_paymentMethod
| paymentInfo_transactionId
| lmkCompliance_reportingStatus
| lmkCompliance_reportedToLMK
| verification_auditTrail.

(** An object literal with the four keys of an audit entry. *)
Record EntryLiteral := {
  lit_action : string;
  lit_performedBy : Js.ObjectId;
  lit_timestamp : Js.Date;
  lit_details : Details
}.

(** The values the routes put in an update document.
    [VOperator op v] is the object literal [{ op: v }] in the place of
    a value, [op] being the name of an update operator. *)
Inductive Value :=
| VString (s : string)
| VDate (d : Js.Date)
| VEntry (e : EntryLiteral)
| VOperator (op : string) (v : Value).

(** The top-level keys of an update document, in order: a path (a key
    that is no operator), [$set] or [$push]. *)
Inductive Clause :=
| Plain (p : Path) (v : Value)
| Set_ (fields : list (Path * Value))
| Push (fields : list (Path * Value)).

Definition Update := list Clause.

(** *** Casting against the schema *)

Definition castEntry (e : EntryLiteral) : AuditEntry :=
  {| action := Some (lit_action e);
     performedBy := Some (lit_performedBy e);
     timestamp := lit_timestamp e;
     details := Some (lit_details e) |}.

(** A value cast to an element of [verification.auditTrail].  The
    schema is strict: a key that is no path of the element ([$push]
    is none) is dropped, and [timestamp] defaults to the time of the
    cast. *)
Definition castSubdocument (now : Js.Date) (v : Value)
  : option AuditEntry :=
  match v with
  | VEntry e => Some (castEntry e)
  | VOperator _ _ =>
      Some {| action := None; performedBy := None; timestamp := now;
              details := None |}
  | VString _ | VDate _ => None
  end.

(** A value that is no array, cast to the array path: the array of
    its one element. *)
Definition castDocumentArray (now : Js.Date) (v : Value)
  : option (list AuditEntry) :=
  match castSubdocument now v with
  | Some e => Some [e]
  | None => None
  end.

(** *** The effect of the operators on a stored transaction

    [None] is a CastError: the value does not fit the type of the
    path. *)

Definition set_path (now : Js.Date) (p : Path) (v : Value) (t : Doc)
  : option Doc :=
  let pay := paymentInfo t in
  let lmk := lmkCompliance t in
  match p, v with
  | paymentInfo_status, VString s =>
      Some (with_paymentInfo
              {| status := s; paymentDate := paymentDate pay;
                 paymentMethod := paymentMethod pay;
                 transactionId := transactionId pay |} t)
  | paymentInfo_paymentDate, VDate d =>
      Some (with_paymentInfo
              {| status := status pay; paymentDate := Some d;
                 paymentMethod := paymentMethod pay;
                 transactionId := transactionId pay |} t)
  | paymentInfo_paymentMethod, VString s =>
      Some (with_paymentInfo
              {| status := status pay; paymentDate := paymentDate pay;
                 paymentMethod := s;
                 transactionId := transactionId pay |} t)
  | paymentInfo_transactionId, VString s =>
      Some (with_paymentInfo
              {| status := status pay; paymentDate := paymentDate pay;
                 paymentMethod := paymentMethod pay;
                 transactionId := Some s |} t)
  | lmkCompliance_reportingStatus, VString s =>
      Some (with_lmkCompliance
              {| reportingStatus := s;
                 reportedToLMK := reportedToLMK lmk |} t)
  | lmkCompliance_reportedToLMK, VDate d =>
      Some (with_lmkCompliance
              {| reportingStatus := reportingStatus lmk;
                 reportedToLMK := Some d |} t)
  | verification_auditTrail, v =>
      match castDocumentArray now v with
      | Some l => Some (with_auditTrail l t)
      | None => None
      end
  | _, _ => None
  end.

(** [$push] appends to an array path; the other paths are no arrays. *)
Definition push_path (now : Js.Date) (p : Path) (v : Value) (t : Doc)
  : option Doc :=
  match p with
  | verification_auditTrail =>
      match castSubdocument now v with
      | Some e => Some (with_auditTrail (auditTrail t ++ [e]) t)
      | None => None
      end
  | _ => None
  end.

Fixpoint apply_fields (f : Path -> Value -> Doc -> option Doc)
         (fields : list (Path * Value)) (t : Doc) : option Doc :=
  match fields with
  | [] => Some t
  | (p, v) :: rest =>
      match f p v t with
      | Some t' => apply_fields f rest t'
      | None => None
      end
  end.

(** A key that is no operator is applied as a [$set] of that path. *)
Definition apply_clause (now : Js.Date) (c : Clause) (t : Doc)
  : option Doc :=
  match c with
  | Plain p v => set_path now p v t
  | Set_ fields => apply_fields (set_path now) fields t
  | Push fields => apply_fields (push_path now) fields t
  end.

Fixpoint applyUpdate (now : Js.Date) (u : Update) (t : Doc)
  : option Doc :=
  match u with
  | [] => Some t
  | c :: rest =>
      match apply_clause now c t with
      | Some t' => applyUpdate now rest t'
      | None => None
      end
  end.

(** [updateOne({ _id: id }, u)]: the first document with that [_id],
    if any, is updated. *)
Fixpoint updateOne (now : Js.Date) (id : Js.ObjectId) (u : Update)
         (collection : list Doc) : option (list Doc) :=
  match collection with
  | [] => Some []
  | t :: rest =>
      if String.eqb (_id t) id then
        match applyUpdate now u t with
        | Some t' => Some (t' :: rest)
        | None => None
        end
      else
        match updateOne now id u rest with
        | Some rest' => Some (t :: rest')
        | None => None
        end
  end.

(** [updateMany({ _id: { $in: ids } }, u)]: every document whose [_id]
    is among [ids] is updated. *)
Fixpoint updateMany (now : Js.Date) (ids : list Js.ObjectId) (u : Update)
         (collection : list Doc) : option (list Doc) :=
  match collection with
  | [] => Some []
  | t :: rest =>
      match (if Js.includes ids (_id t) then applyUpdate now u t
             else Some t) with
      | Some t' =>
          match updateMany now ids u rest with
          | Some rest' => Some (t' :: rest')
          | None => None
          end
      | None => None
      end
  end.

(** The operations of a [bulkWrite], applied in order. *)
Record UpdateOneOp := { filter_id : Js.ObjectId; update : Update }.

Fixpoint bulkWrite (now : Js.Date) (ops : list UpdateOneOp)
         (collection : list Doc) : option (list Doc) :=
  match ops with
  | [] => Some collection
  | op :: rest =>
      match updateOne now (filter_id op) (update op) collection with
      | Some collection' => bulkWrite now rest collection'
      | None => None
      end
  end.

End Mongo.

(** ** The authenticated user of a request *)

Module User.

Record Address := {
  street : option string;
  city : option string;
  province : option string
}.

Record BusinessInfo := {
  companyName : option string;
  businessType : option string;
  address : option Address
}.

Record Doc := {
  _id : Js.ObjectId;
  businessInfo : BusinessInfo
}.

End User.

(** ** The royalty routes

    A handler, as a function, is a run that nothing interrupts: it runs
    on the state of the database and returns its response with the state
    it leaves.  What a run takes from outside is its [Env]: the reading
    of the clock (one per run), the ObjectId a new document gets, and
    whether the database accepts the writes.  The middleware in front of
    the handlers ([requireBusinessLicense], [requireRole]) has let the
    request pass.  The runs as they interleave, each yielding at its
    awaits, follow the handlers ([Server], [perform]). *)

Module Routes.

Module RT := RoyaltyTransaction.

Record Env := {
  now : Js.Date;
  newObjectId : Js.ObjectId;
  saveOk : bool;      (* the insert of [save()] is accepted *)
  updateOk : bool     (* the update sent next is accepted *)
}.

(** The callback [setTimeout] holds: it closes over the request's
    [transactionIds] and user. *)
Record Timer := {
  timer_transactionIds : list string;
  timer_user : Js.ObjectId
}.

Record State := {
  royaltyTransactions : list RT.Doc;
  musics : list Music.Doc;
  timers : list Timer
}.

Inductive Body :=
| Message (message code : string)
| MusicNotAvailable (businessType : option string)
                    (allowedTypes : list string)
| PlayRecorded (id : Js.ObjectId) (calculatedAmount : float)
               (currency playType : string)
               (lmkCompliance : RT.LmkCompliance)
| PaymentInitiated (processedTransactions : nat) (totalAmount : float)
                   (currency : string).

Record Response := { statusCode : nat; body : Body }.

(** *** POST /play *)

Module PlayBody.
Record Location := {
  address : option string;
  city : option string;
  province : option string
}.
Record t := {
  musicId : option string;
  playType : option string;
  duration : option float;
  location : option Location;
  deviceInfo : option RT.DeviceInfo
}.
End PlayBody.

Definition findById (id : Js.ObjectId) (collection : list Music.Doc)
  : option Music.Doc :=
  find (fun m => String.eqb (Music._id m) id) collection.

(** [o?.f] *)
Definition chain {A B} (o : option A) (f : A -> option B) : option B :=
  match o with
  | Some a => f a
  | None => None
  end.

Definition holder_share (calculatedAmount factor : float)
           (h : Music.RightsHolder) : RT.Holder.t :=
  {| RT.Holder.lmkMemberNumber := Music.lmkMemberNumber h;
     RT.Holder.name := Music.name h;
     RT.Holder.amount :=
       (calculatedAmount * (Music.sharePercentage h / 100) * factor)%float;
     RT.Holder.percentage := Music.sharePercentage h |}.

(** The [distribution] object of the handler. *)
Definition distribution (calculatedAmount : float) (music : Music.Doc)
  : RT.Distribution.t :=
  let lmkInfo := Music.lmkInfo music in
  {| RT.Distribution.artist :=
       {| RT.Share.amount := (calculatedAmount * 0.7)%float;
          RT.Share.percentage := 70%float |};
     RT.Distribution.publishers :=
       map (holder_share calculatedAmount 0.15%float)
           (Music.publishers lmkInfo);
     RT.Distribution.composers :=
       map (holder_share calculatedAmount 0.1%float)
           (Music.composers lmkInfo);
     RT.Distribution.lyricists :=
       map (holder_share calculatedAmount 0.05%float)
           (Music.lyricists lmkInfo);
     RT.Distribution.lmkFee :=
       {| RT.Share.amount := (calculatedAmount * 0.05)%float;
          RT.Share.percentage := 5%float |};
     RT.Distribution.platformFee :=
       {| RT.Share.amount := (calculatedAmount * 0.1)%float;
          RT.Share.percentage := 10%float |} |}.

(** [royaltyTransaction.save()]: the schema validates the document,
    the pre-save hook stamps [updatedAt], the collection inserts it
    unless the [_id] is taken.  [None] is a rejected promise. *)
Definition save (env : Env) (doc : RT.Doc) (collection : list RT.Doc)
  : option (list RT.Doc) :=
  if RT.validate doc
     && saveOk env
     && negb (existsb (fun t => String.eqb (RT._id t) (RT._id doc))
                      collection)
  then Some (collection ++ [RT.with_updatedAt (now env) doc])
  else None.

(** [Music.findByIdAndUpdate(musicId, { $inc: ..., $set: ... })] *)
Fixpoint updateAnalytics (env : Env) (musicId : Js.ObjectId)
         (collection : list Music.Doc) : list Music.Doc :=
  match collection with
  | [] => []
  | m :: rest =>
      if String.eqb (Music._id m) musicId then
        let a := Music.analytics m in
        Music.with_analytics
          {| Music.totalPlays := Music.totalPlays a + 1;
             Music.businessPlays := Music.businessPlays a + 1;
             Music.lastPlayed := Some (now env) |} m :: rest
      else m :: updateAnalytics env musicId rest
  end.

Definition findByIdAndUpdate (env : Env) (musicId : Js.ObjectId)
           (collection : list Music.Doc) : option (list Music.Doc) :=
  if updateOk env then Some (updateAnalytics env musicId collection)
  else None.

Definition play_record_error : Response :=
  {| statusCode := 500;
     body := Message "Failed to record play" "PLAY_RECORD_ERROR" |}.

(** [new RoyaltyTransaction({ ... })], for the found [music] and its
    populated [artist]. *)
Definition new_RoyaltyTransaction (env : Env) (user : User.Doc)
           (req : PlayBody.t) (musicId : Js.ObjectId) (music : Music.Doc)
           (artist : Js.ObjectId) : RT.Doc :=
  let playType := match PlayBody.playType req with
                  | Some p => p
                  | None => "background"
                  end in
  let duration := PlayBody.duration req in
  let location := PlayBody.location req in
  let deviceInfo := PlayBody.deviceInfo req in
  let businessInfo := User.businessInfo user in
  let baseRate := Music.calculateRoyalty music (Some playType) in
  let calculatedAmount := baseRate in
  let distribution := distribution calculatedAmount music in
  {| RT._id := newObjectId env;
     RT.music := musicId;
     RT.business := User._id user;
     RT.artist := artist;
     RT.playInfo :=
       {| RT.playType := playType;
          RT.playDate := now env;
          RT.duration :=
            Js.or_undefined_number duration (Music.duration music);
          RT.location :=
            {| RT.businessName := User.companyName businessInfo;
               RT.address :=
                 Js.or_string
                   (chain location PlayBody.address)
                   (chain (User.address businessInfo) User.street);
               RT.city :=
                 Js.or_string
                   (chain location PlayBody.city)
                   (chain (User.address businessInfo) User.city);
               RT.province :=
                 Js.or_string
                   (chain location PlayBody.province)
                   (chain (User.address businessInfo) User.province) |};
          RT.deviceInfo := deviceInfo |};
     RT.royaltyInfo :=
       {| RT.baseRate := baseRate;
          RT.calculatedAmount := calculatedAmount;
          RT.currency := "IDR";
          RT.distribution := distribution |};
     RT.lmkCompliance :=
       {| RT.reportingStatus := "pending"; RT.reportedToLMK := None |};
     RT.paymentInfo :=
       {| RT.status := "pending"; RT.paymentDate := None;
          RT.paymentMethod := "bank_transfer";
          RT.transactionId := None |};
     RT.auditTrail := [];
     RT.source := "web_player";
     RT.createdAt := now env;
     RT.updatedAt := now env |}.

Definition post_play (env : Env) (user : User.Doc) (req : PlayBody.t)
           (s : State) : Response * State :=
  let playType := match PlayBody.playType req with
                  | Some p => p
                  | None => "background"
                  end in
  match PlayBody.musicId req with
  | None | Some "" =>
      ({| statusCode := 400;
          body := Message "Music ID is required" "MISSING_MUSIC_ID" |}, s)
  | Some musicId =>
  match findById musicId (musics s) with
  | None =>
      ({| statusCode := 404;
          body := Message "Music not found" "MUSIC_NOT_FOUND" |}, s)
  | Some music =>
  let businessType := User.businessType (User.businessInfo user) in
  if negb (Music.isAvailableForBusiness music businessType) then
    ({| statusCode := 403;
        body := MusicNotAvailable businessType
                  (Music.allowedBusinessTypes music) |}, s)
  else
  match Music.artist music with
  | None => (play_record_error, s)   (* [music.artist._id] throws *)
  | Some artist =>
  let royaltyTransaction :=
    new_RoyaltyTransaction env user req musicId music artist in
  match save env royaltyTransaction (royaltyTransactions s) with
  | None => (play_record_error, s)
  | Some saved =>
  let s := {| royaltyTransactions := saved; musics := musics s;
              timers := timers s |} in
  match findByIdAndUpdate env musicId (musics s) with
  | None => (play_record_error, s)
  | Some updated =>
  ({| statusCode := 201;
      body := PlayRecorded (RT._id royaltyTransaction)
                (RT.calculatedAmount (RT.royaltyInfo royaltyTransaction))
                "IDR" playType (RT.lmkCompliance royaltyTransaction) |},
   {| royaltyTransactions := royaltyTransactions s; musics := updated;
      timers := timers s |})
  end end end end end.

(** *** POST /process-payment *)

Module PaymentBody.
(** [transactionIds] is [None] when the body has none or has a value
    that is no array. *)
Record t := {
  transactionIds : option (list string);
  paymentMethod : option string
}.
End PaymentBody.

(** The documents the filter [{ _id: { $in: ids },
    'paymentInfo.status': 'pending' }] matches, for ids cast already. *)
Definition pending_among (ids : list Js.ObjectId)
           (collection : list RT.Doc) : list RT.Doc :=
  filter (fun t =>
            Js.includes ids (RT._id t)
            && String.eqb (RT.status (RT.paymentInfo t)) "pending")
         collection.

(** [RoyaltyTransaction.find({ _id: { $in: transactionIds },
    'paymentInfo.status': 'pending' })]: the query casts the listed
    values to ObjectIds; [None] is the promise rejected with the
    CastError. *)
Definition find_pending (transactionIds : list string)
           (collection : list RT.Doc) : option (list RT.Doc) :=
  match Js.castObjectIds transactionIds with
  | Some ids => Some (pending_among ids collection)
  | None => None
  end.

(** The [update] object built for one transaction: all its keys are
    paths, and the value at ['verification.auditTrail'] is the object
    [{ $push: { ... } }]. *)
Definition initiate_update (env : Env) (user : Js.ObjectId)
           (paymentMethod : string) (transaction : RT.Doc)
  : Mongo.Update :=
  [ Mongo.Plain Mongo.paymentInfo_status (Mongo.VString "processing");
    Mongo.Plain Mongo.paymentInfo_paymentDate (Mongo.VDate (now env));
    Mongo.Plain Mongo.paymentInfo_paymentMethod
      (Mongo.VString paymentMethod);
    Mongo.Plain Mongo.paymentInfo_transactionId
      (Mongo.VString
         ("PAY_" ++ Js.string_of_Z (now env) ++ "_"
          ++ Js.slice_last 6 (RT._id transaction)));
    Mongo.Plain Mongo.verification_auditTrail
      (Mongo.VOperator "$push"
         (Mongo.VEntry
            {| Mongo.lit_action := "payment_initiated";
               Mongo.lit_performedBy := user;
               Mongo.lit_timestamp := now env;
               Mongo.lit_details :=
                 RT.PaymentInitiatedFor
                   (RT.calculatedAmount
                      (RT.royaltyInfo transaction)) |})) ].

(** The [for ... of] loop over the found transactions, on its two
    accumulators [updates] and [totalAmount]. *)
Definition payment_loop (env : Env) (user : Js.ObjectId)
           (paymentMethod : string) (transactions : list RT.Doc)
  : list Mongo.UpdateOneOp * float :=
  fold_left
    (fun acc transaction =>
       let '(updates, totalAmount) := acc in
       let totalAmount :=
         (totalAmount
          + RT.calculatedAmount (RT.royaltyInfo transaction))%float in
       let update := initiate_update env user paymentMethod transaction in
       (updates ++ [ {| Mongo.filter_id := RT._id transaction;
                        Mongo.update := update |} ],
        totalAmount))
    transactions ([], 0%float).

(** The update of the deferred callback. *)
Definition completion_update (env : Env) (user : Js.ObjectId)
  : Mongo.Update :=
  [ Mongo.Set_
      [ (Mongo.paymentInfo_status, Mongo.VString "completed");
        (Mongo.lmkCompliance_reportingStatus, Mongo.VString "reported");
        (Mongo.lmkCompliance_reportedToLMK, Mongo.VDate (now env)) ];
    Mongo.Push
      [ (Mongo.verification_auditTrail,
         Mongo.VEntry
           {| Mongo.lit_action := "payment_completed";
              Mongo.lit_performedBy := user;
              Mongo.lit_timestamp := now env;
              Mongo.lit_details :=
                RT.Text "Payment completed and reported to LMK" |}) ] ].

Definition post_process_payment (env : Env) (user : User.Doc)
           (req : PaymentBody.t) (s : State) : Response * State :=
  let paymentMethod := match PaymentBody.paymentMethod req with
                       | Some m => m
                       | None => "bank_transfer"
                       end in
  match PaymentBody.transactionIds req with
  | None =>
      ({| statusCode := 400;
          body := Message "Transaction IDs array is required"
                          "MISSING_TRANSACTION_IDS" |}, s)
  | Some transactionIds =>
  match find_pending transactionIds (royaltyTransactions s) with
  | None =>
      ({| statusCode := 500;
          body := Message "Failed to process payment"
                          "PAYMENT_PROCESS_ERROR" |}, s)
  | Some transactions =>
  if Nat.eqb (List.length transactions) 0 then
    ({| statusCode := 404;
        body := Message "No pending transactions found"
                        "NO_PENDING_TRANSACTIONS" |}, s)
  else
  let '(updates, totalAmount) :=
    payment_loop env (User._id user) paymentMethod transactions in
  match (if updateOk env
         then Mongo.bulkWrite (now env) updates (royaltyTransactions s)
         else None) with
  | None =>
      ({| statusCode := 500;
          body := Message "Failed to process payment"
                          "PAYMENT_PROCESS_ERROR" |}, s)
  | Some written =>
  ({| statusCode := 200;
      body := PaymentInitiated (List.length transactions) totalAmount
                               "IDR" |},
   {| royaltyTransactions := written; musics := musics s;
      timers := timers s
                ++ [ {| timer_transactionIds := transactionIds;
                        timer_user := User._id user |} ] |})
  end end end.

(** The callback of [setTimeout]: its [updateMany] casts the listed
    values as the query of the request did; an error of the update is
    caught and logged. *)
Definition payment_completion (env : Env) (timer : Timer) (s : State)
  : State :=
  match (if updateOk env
         then match Js.castObjectIds (timer_transactionIds timer) with
              | Some ids =>
                  Mongo.updateMany (now env) ids
                    (completion_update env (timer_user timer))
                    (royaltyTransactions s)
              | None => None
              end
         else None) with
  | Some written =>
      {| royaltyTransactions := written; musics := musics s;
         timers := timers s |}
  | None => s
  end.

Fixpoint remove_nth {A} (n : nat) (l : list A) : list A :=
  match n, l with
  | _, [] => []
  | O, _ :: rest => rest
  | S n, x :: rest => x :: remove_nth n rest
  end.

(** The [n]-th callback still held fires, after whatever delay. *)
Definition fire_timer (env : Env) (n : nat) (s : State) : option State :=
  match nth_error (timers s) n with
  | Some timer =>
      Some (payment_completion env timer
              {| royaltyTransactions := royaltyTransactions s;
                 musics := musics s;
                 timers := remove_nth n (timers s) |})
  | None => None
  end.

(** *** The runs of the handlers, interleaved

    A handler does not run alone.  At each [await] it yields, and the
    commands of other requests and of callbacks reach the database in
    between; the writes of one [bulkWrite] or [updateMany] land one
    document at a time, and other writes land between them.  A run is
    held here between two such moments, with what it has read and
    computed so far:
    - [Recording]: POST /play has found the work and sent [save()];
    - [Counting]: the transaction is saved, [findByIdAndUpdate] sent;
    - [Initiating]: POST /process-payment has found its transactions and
      sent [bulkWrite]; [todo] are those whose [updateOne] has not
      landed yet;
    - [Completing]: a callback has sent [updateMany]; [todo] are the
      listed ids whose document the server has not visited yet, which
      it visits in an order of its own.
    A run keeps the [Env] it started with. *)

Inductive Run :=
| Recording (env : Env) (user : User.Doc) (req : PlayBody.t)
            (musicId : Js.ObjectId) (music : Music.Doc)
            (artist : Js.ObjectId)
| Counting (env : Env) (musicId : Js.ObjectId)
| Initiating (env : Env) (user : User.Doc) (paymentMethod : string)
             (transactionIds : list string) (todo : list RT.Doc)
| Completing (env : Env) (timer : Timer) (todo : list Js.ObjectId).

Record Server := {
  state : State;
  running : list Run
}.

(** What POST /play does up to its [save()]: it answers, or has the
    work and its artist. *)
Inductive Lookup :=
| Answered (response : Response)
| Found (musicId : Js.ObjectId) (music : Music.Doc) (artist : Js.ObjectId).

Definition play_lookup (user : User.Doc) (req : PlayBody.t) (s : State)
  : Lookup :=
  match PlayBody.musicId req with
  | None | Some "" =>
      Answered {| statusCode := 400;
                  body := Message "Music ID is required"
                                  "MISSING_MUSIC_ID" |}
  | Some musicId =>
  match findById musicId (musics s) with
  | None =>
      Answered {| statusCode := 404;
                  body := Message "Music not found" "MUSIC_NOT_FOUND" |}
  | Some music =>
  let businessType := User.businessType (User.businessInfo user) in
  if negb (Music.isAvailableForBusiness music businessType) then
    Answered {| statusCode := 403;
                body := MusicNotAvailable businessType
                          (Music.allowedBusinessTypes music) |}
  else
  match Music.artist music with
  | None => Answered play_record_error
  | Some artist => Found musicId music artist
  end end end.

Definition with_royaltyTransactions (collection : list RT.Doc) (s : State)
  : State :=
  {| royaltyTransactions := collection; musics := musics s;
     timers := timers s |}.

Definition with_musics (collection : list Music.Doc) (s : State) : State :=
  {| royaltyTransactions := royaltyTransactions s; musics := collection;
     timers := timers s |}.

Definition with_timers (held : list Timer) (s : State) : State :=
  {| royaltyTransactions := royaltyTransactions s; musics := musics s;
     timers := held |}.

Fixpoint replace_nth {A} (n : nat) (x : A) (l : list A) : list A :=
  match n, l with
  | _, [] => []
  | O, _ :: rest => x :: rest
  | S n, y :: rest => y :: replace_nth n x rest
  end.

(** What happens next on the server: a request arrives and its first
    query is answered, a command of the [n]-th run lands (for an
    [updateMany], on the document of the [k]-th id left), the [n]-th
    callback fires, a run fails.  The routes of the catalog write the
    Music collection only. *)
Inductive Action :=
| PlayArrives (env : Env) (user : User.Doc) (req : PlayBody.t)
| SaveLands (n : nat)
| CountLands (n : nat)
| PaymentArrives (env : Env) (user : User.Doc) (req : PaymentBody.t)
| InitiationLands (n : nat)
| PaymentAnswers (n : nat)
| TimerFires (env : Env) (n : nat)
| CompletionLands (n k : nat)
| RunFails (n : nat)
| CatalogWritten (catalog : list Music.Doc).

(** The server after an action; [None] when the action cannot happen
    there.  A request answered at once leaves the server as it is. *)
Definition perform (a : Action) (sv : Server) : option Server :=
  let s := state sv in
  match a with
  | PlayArrives env user req =>
      match play_lookup user req s with
      | Found musicId music artist =>
          Some {| state := s;
                  running := running sv
                             ++ [Recording env user req musicId music
                                           artist] |}
      | Answered _ => Some sv
      end
  | SaveLands n =>
      match nth_error (running sv) n with
      | Some (Recording env user req musicId music artist) =>
          match save env
                  (new_RoyaltyTransaction env user req musicId music artist)
                  (royaltyTransactions s) with
          | Some saved =>
              Some {| state := with_royaltyTransactions saved s;
                      running := replace_nth n (Counting env musicId)
                                             (running sv) |}
          | None =>
              Some {| state := s; running := remove_nth n (running sv) |}
          end
      | _ => None
      end
  | CountLands n =>
      match nth_error (running sv) n with
      | Some (Counting env musicId) =>
          match findByIdAndUpdate env musicId (musics s) with
          | Some updated =>
              Some {| state := with_musics updated s;
                      running := remove_nth n (running sv) |}
          | None =>
              Some {| state := s; running := remove_nth n (running sv) |}
          end
      | _ => None
      end
  | PaymentArrives env user req =>
      let paymentMethod := match PaymentBody.paymentMethod req with
                           | Some m => m
                           | None => "bank_transfer"
                           end in
      match PaymentBody.transactionIds req with
      | None => Some sv
      | Some transactionIds =>
          match find_pending transactionIds (royaltyTransactions s) with
          | Some (transaction :: transactions) =>
              if updateOk env then
                Some {| state := s;
                        running :=
                          running sv
                          ++ [Initiating env user paymentMethod
                                transactionIds
                                (transaction :: transactions)] |}
              else Some sv
          | _ => Some sv
          end
      end
  | InitiationLands n =>
      match nth_error (running sv) n with
      | Some (Initiating env user paymentMethod transactionIds
                         (transaction :: todo)) =>
          match Mongo.updateOne (now env) (RT._id transaction)
                  (initiate_update env (User._id user) paymentMethod
                                   transaction)
                  (royaltyTransactions s) with
          | Some written =>
              Some {| state := with_royaltyTransactions written s;
                      running :=
                        replace_nth n
                          (Initiating env user paymentMethod transactionIds
                                      todo)
                          (running sv) |}
          | None =>
              Some {| state := s; running := remove_nth n (running sv) |}
          end
      | _ => None
      end
  | PaymentAnswers n =>
      match nth_error (running sv) n with
      | Some (Initiating env user paymentMethod transactionIds []) =>
          Some {| state :=
                    with_timers
                      (timers s
                       ++ [ {| timer_transactionIds := transactionIds;
                               timer_user := User._id user |} ]) s;
                  running := remove_nth n (running sv) |}
      | _ => None
      end
  | TimerFires env n =>
      match nth_error (timers s) n with
      | Some timer =>
          let s' := with_timers (remove_nth n (timers s)) s in
          match (if updateOk env
                 then Js.castObjectIds (timer_transactionIds timer)
                 else None) with
          | Some ids =>
              Some {| state := s';
                      running := running sv
                                 ++ [Completing env timer
                                                (nodup string_dec ids)] |}
          | None => Some {| state := s'; running := running sv |}
          end
      | None => None
      end
  | CompletionLands n k =>
      match nth_error (running sv) n with
      | Some (Completing env timer []) =>
          Some {| state := s; running := remove_nth n (running sv) |}
      | Some (Completing env timer todo) =>
          match nth_error todo k with
          | Some id =>
              match Mongo.updateOne (now env) id
                      (completion_update env (timer_user timer))
                      (royaltyTransactions s) with
              | Some written =>
                  Some {| state := with_royaltyTransactions written s;
                          running :=
                            replace_nth n
                              (Completing env timer (remove_nth k todo))
                              (running sv) |}
              | None =>
                  Some {| state := s;
                          running := remove_nth n (running sv) |}
              end
          | None => None
          end
      | _ => None
      end
  | RunFails n =>
      match nth_error (running sv) n with
      | Some _ => Some {| state := s; running := remove_nth n (running sv) |}
      | None => None
      end
  | CatalogWritten catalog =>
      Some {| state := with_musics catalog s; running := running sv |}
  end.

(** The actions of a list, one after the other. *)
Fixpoint schedule (actions : list Action) (sv : Server) : option Server :=
  match actions with
  | [] => Some sv
  | a :: rest =>
      match perform a sv with
      | Some sv' => schedule rest sv'
      | None => None
      end
  end.


Definition step (sv sv' : Server) : Prop :=
  exists a, perform a sv = Some sv'.

Definition initial : Server :=
  {| state := {| royaltyTransactions := []; musics := []; timers := [] |};
     running := [] |}.

Definition reachable (sv : Server) : Prop :=
  clos_refl_trans_n1 Server step initial sv.

End Routes.

(** ** Sample data *)

Module Sample.

Definition work_id : Js.ObjectId := "64a000000000000000000001".
Definition artist_id : Js.ObjectId := "63a000000000000000000001".
Definition cafe_id : Js.ObjectId := "63a000000000000000000002".
Definition admin_id : Js.ObjectId := "63a000000000000000000003".
Definition tx1 : Js.ObjectId := "65a000000000000000000001".
Definition tx2 : Js.ObjectId := "65a000000000000000000002".
Definition unknown_id : Js.ObjectId := "65a0000000000000000000ff".

Definition holder (n : string) (share : float) : Music.RightsHolder :=
  {| Music.name := Some n; Music.lmkMemberNumber := Some ("LMK-" ++ n)%string;
     Music.sharePercentage := share |}.

(** A published, approved work with two publishers of the given share,
    no composer and no lyricist. *)
Definition work (share : float) : Music.Doc :=
  {| Music._id := work_id;
     Music.artist := Some artist_id;
     Music.duration := 180%float;
     Music.lmkInfo :=
       {| Music.publishers := [holder "P1" share; holder "P2" share];
          Music.composers := [];
          Music.lyricists := [];
          Music.complianceStatus := "approved";
          Music.royaltyRate :=
            {| Music.mechanical := 1000%float;
               Music.performance := 2000%float;
               Music.synchronization := 5000%float |} |};
     Music.allowedBusinessTypes := [];
     Music.analytics :=
       {| Music.totalPlays := 0; Music.businessPlays := 0;
          Music.lastPlayed := None |};
     Music.status := "published";
     Music.isActive := true |}.

Definition cafe : User.Doc :=
  {| User._id := cafe_id;
     User.businessInfo :=
       {| User.companyName := Some "Kopi";
          User.businessType := Some "cafe";
          User.address := None |} |}.

Definition admin : User.Doc :=
  {| User._id := admin_id;
     User.businessInfo :=
       {| User.companyName := None; User.businessType := None;
          User.address := None |} |}.

(** An environment where the database accepts every write. *)
Definition env (t : Z) (id : Js.ObjectId) : Routes.Env :=
  {| Routes.now := t; Routes.newObjectId := id;
     Routes.saveOk := true; Routes.updateOk := true |}.

Definition play (playType : option string) : Routes.PlayBody.t :=
  {| Routes.PlayBody.musicId := Some work_id;
     Routes.PlayBody.playType := playType;
     Routes.PlayBody.duration := None;
     Routes.PlayBody.location := None;
     Routes.PlayBody.deviceInfo := None |}.

Definition pay (ids : list Js.ObjectId) : Routes.PaymentBody.t :=
  {| Routes.PaymentBody.transactionIds := Some ids;
     Routes.PaymentBody.paymentMethod := None |}.

Definition catalog : Routes.State :=
  {| Routes.royaltyTransactions := [];
     Routes.musics := [work 50%float];
     Routes.timers := [] |}.

(** The transaction of a commercial play of the work at time 1000. *)
Definition recorded : RoyaltyTransaction.Doc :=
  Routes.new_RoyaltyTransaction (env 1000 tx1) cafe
    (play (Some "commercial")) work_id (work 50%float) artist_id.

(** A commercial play of the work is recorded at time 1000. *)
Definition played : Routes.State :=
  snd (Routes.post_play (env 1000 tx1) cafe (play (Some "commercial"))
         catalog).

(** The payment of that play is requested at time 2000. *)
Definition initiated : Routes.State :=
  snd (Routes.post_process_payment (env 2000 unknown_id) admin (pay [tx1]) played).

(** The callback of that request fires at time 7000. *)
Definition completed : Routes.State :=
  match Routes.fire_timer (env 7000 unknown_id) 0 initiated with
  | Some s => s
  | None => initiated
  end.

(** The transaction of that play, as the ledger holds it then. *)
Definition settled : RoyaltyTransaction.Doc :=
  nth 0 (Routes.royaltyTransactions completed) recorded.

(** A second play, of no stated type, is recorded at time 8000. *)
Definition played_again : Routes.State :=
  snd (Routes.post_play (env 8000 tx2) cafe (play None) completed).

(** A payment is requested at time 9000 for the settled transaction,
    the new one and an id that names no transaction. *)
Definition requested : list Js.ObjectId := [tx1; tx2; unknown_id].

Definition initiated_again : Routes.State :=
  snd (Routes.post_process_payment (env 9000 unknown_id) admin (pay requested)
         played_again).

(** The callback of the second request fires at time 14000. *)
Definition completed_again : Routes.State :=
  match Routes.fire_timer (env 14000 unknown_id) 0 initiated_again with
  | Some s => s
  | None => initiated_again
  end.

(** The settled transaction after the second callback. *)
Definition settled_again : RoyaltyTransaction.Doc :=
  nth 0 (Routes.royaltyTransactions completed_again) recorded.

End Sample.
(** ** Predicates on the ledger *)

Module Ledger.

Module RT := RoyaltyTransaction.

(** The fields written once, at creation. *)
Definition same_record (t t' : RT.Doc) : Prop :=
  RT._id t' = RT._id t
  /\ RT.music t' = RT.music t
  /\ RT.business t' = RT.business t
  /\ RT.artist t' = RT.artist t
  /\ RT.playInfo t' = RT.playInfo t
  /\ RT.royaltyInfo t' = RT.royaltyInfo t
  /\ RT.source t' = RT.source t
  /\ RT.createdAt t' = RT.createdAt t.

(** The reporting status has left ['pending']. *)
Definition reported (t : RT.Doc) : Prop :=
  In (RT.reportingStatus (RT.lmkCompliance t))
     ["reported"; "confirmed"; "disputed"].

(** The payment is not settled yet. *)
Definition unsettled (t : RT.Doc) : Prop :=
  In (RT.status (RT.paymentInfo t)) ["pending"; "processing"].

(** Where the writes of the routes leave a transaction: the payment
    pending or processing with the report pending, or the report made
    with the payment completed or, written over by a later request,
    processing. *)
Definition staged (t : RT.Doc) : Prop :=
  (RT.reportingStatus (RT.lmkCompliance t) = "pending" /\ unsettled t)
  \/ (RT.reportingStatus (RT.lmkCompliance t) = "reported"
      /\ In (RT.status (RT.paymentInfo t)) ["processing"; "completed"]).

(** The [_id] index of the collection: no two documents share one. *)
Definition unique_ids (collection : list RT.Doc) : Prop :=
  NoDup (map RT._id collection).

Definition consistent (s : Routes.State) : Prop :=
  unique_ids (Routes.royaltyTransactions s)
  /\ Forall staged (Routes.royaltyTransactions s).

(** What a [bulkWrite] of initiation updates on the documents named
    [ids] does to one document. *)
Definition initiated (ids : list Js.ObjectId) (t t' : RT.Doc) : Prop :=
  t' = t
  \/ (In (RT._id t) ids
      /\ same_record t t'
      /\ RT.lmkCompliance t' = RT.lmkCompliance t
      /\ RT.status (RT.paymentInfo t') = "processing").

(** What the update of the completion callback does to one document. *)
Definition settled (t t' : RT.Doc) : Prop :=
  t' = t
  \/ (same_record t t'
      /\ RT.reportingStatus (RT.lmkCompliance t') = "reported"
      /\ RT.status (RT.paymentInfo t') = "completed").

(** What one write of the payment route or of its callback does to a
    stored document. *)
Definition touched (t t' : RT.Doc) : Prop :=
  (exists ids, initiated ids t t') \/ settled t t'.

(** A transaction as [save()] inserts it into a collection. *)
Definition opened (collection : list RT.Doc) (t : RT.Doc) : Prop :=
  RT.reportingStatus (RT.lmkCompliance t) = "pending"
  /\ RT.status (RT.paymentInfo t) = "pending"
  /\ ~ In (RT._id t) (map RT._id collection).

(** The ledger of a server. *)
Definition held (sv : Routes.Server) : list RT.Doc :=
  Routes.royaltyTransactions (Routes.state sv).

(** The document the update of the completion callback leaves. *)
Definition completed_by (env : Routes.Env) (user : Js.ObjectId) (t : RT.Doc)
  : RT.Doc :=
  RT.with_auditTrail
    (RT.auditTrail t
     ++ [ {| RT.action := Some "payment_completed";
             RT.performedBy := Some user;
             RT.timestamp := Routes.now env;
             RT.details :=
               Some (RT.Text "Payment completed and reported to LMK") |} ])
    (RT.with_lmkCompliance
       {| RT.reportingStatus := "reported";
          RT.reportedToLMK := Some (Routes.now env) |}
       (RT.with_paymentInfo
          {| RT.status := "completed";
             RT.paymentDate := RT.paymentDate (RT.paymentInfo t);
             RT.paymentMethod := RT.paymentMethod (RT.paymentInfo t);
             RT.transactionId := RT.transactionId (RT.paymentInfo t) |}
          t)).

(** The [updateOne] the payment route queues for a found transaction. *)
Definition initiate_op (env : Routes.Env) (user : Js.ObjectId)
           (paymentMethod : string) (transaction : RT.Doc)
  : Mongo.UpdateOneOp :=
  {| Mongo.filter_id := RT._id transaction;
     Mongo.update :=
       Routes.initiate_update env user paymentMethod transaction |}.

(** The ids of a request that name a pending transaction of the
    collection, each once. *)
Definition pending_ids (ids : list Js.ObjectId) (collection : list RT.Doc)
  : list Js.ObjectId :=
  filter (fun id =>
            existsb (fun t =>
                       String.eqb (RT._id t) id
                       && String.eqb (RT.status (RT.paymentInfo t)) "pending")
                    collection)
         (nodup string_dec ids).

(** The sum of the calculated amounts of [ts], taken in their order
    from 0. *)
Definition sum_calculatedAmount (ts : list RT.Doc) : float :=
  fold_left (fun sum t =>
               (sum + RT.calculatedAmount (RT.royaltyInfo t))%float)
            ts 0%float.

End Ledger.

(** ** The documents the payment updates leave *)

Module Settlement.

Module RT := RoyaltyTransaction.

(** The entry the operator object of the payment request casts to. *)
Definition blank_entry (env : Routes.Env) : RT.AuditEntry :=
  {| RT.action := None; RT.performedBy := None;
     RT.timestamp := Routes.now env; RT.details := None |}.

(** The external transaction id the payment request assigns. *)
Definition external_id (env : Routes.Env) (id : Js.ObjectId) : string :=
  ("PAY_" ++ Js.string_of_Z (Routes.now env) ++ "_"
   ++ Js.slice_last 6 id)%string.

(** The document the update of the payment request leaves. *)
Definition initiated_by (env : Routes.Env) (paymentMethod : string)
           (t : RT.Doc) : RT.Doc :=
  RT.with_auditTrail [blank_entry env]
    (RT.with_paymentInfo
       {| RT.status := "processing";
          RT.paymentDate := Some (Routes.now env);
          RT.paymentMethod := paymentMethod;
          RT.transactionId := Some (external_id env (RT._id t)) |}
       t).

(** The method a payment request pays by. *)
Definition method_of (req : Routes.PaymentBody.t) : string :=
  match Routes.PaymentBody.paymentMethod req with
  | Some m => m
  | None => "bank_transfer"
  end.

(** One transaction across a step: its payment status stays, or
    becomes processing, or becomes completed; its report stays, or
    becomes reported with the payment completed. *)
Definition moves (t t' : RT.Doc) : Prop :=
  (RT.status (RT.paymentInfo t') = RT.status (RT.paymentInfo t)
   \/ RT.status (RT.paymentInfo t') = "processing"
   \/ RT.status (RT.paymentInfo t') = "completed")
  /\ (RT.lmkCompliance t' = RT.lmkCompliance t
      \/ (RT.reportingStatus (RT.lmkCompliance t') = "reported"
          /\ RT.status (RT.paymentInfo t') = "completed")).

End Settlement.

(** ** More of the sample run *)

Module Trace.

(** An environment where the insert is accepted and the next update
    refused. *)
Definition update_refused (t : Z) (id : Js.ObjectId) : Routes.Env :=
  {| Routes.now := t; Routes.newObjectId := id;
     Routes.saveOk := true; Routes.updateOk := false |}.

End Trace.

(** ** Schedules of the sample requests *)

Module Runs.

Import Routes.

(** The sample run, each request and callback running alone: the work
    enters the catalog, is played, paid and settled, played again and
    paid with the settled transaction listed again. *)
Definition alone : list Action :=
  [ CatalogWritten [Sample.work 50%float];
    PlayArrives (Sample.env 1000 Sample.tx1) Sample.cafe
                (Sample.play (Some "commercial"));
    SaveLands 0; CountLands 0;
    PaymentArrives (Sample.env 2000 Sample.unknown_id) Sample.admin
                   (Sample.pay [Sample.tx1]);
    InitiationLands 0; PaymentAnswers 0;
    TimerFires (Sample.env 7000 Sample.unknown_id) 0;
    CompletionLands 0 0; CompletionLands 0 0;
    PlayArrives (Sample.env 8000 Sample.tx2) Sample.cafe (Sample.play None);
    SaveLands 0; CountLands 0;
    PaymentArrives (Sample.env 9000 Sample.unknown_id) Sample.admin
                   (Sample.pay Sample.requested);
    InitiationLands 0; PaymentAnswers 0;
    TimerFires (Sample.env 14000 Sample.unknown_id) 0;
    CompletionLands 0 0; CompletionLands 0 0; CompletionLands 0 0;
    CompletionLands 0 0 ].

(** The same, from the first play on. *)
Definition from_played : list Action := skipn 4 alone.

Definition server (s : State) : Server := {| state := s; running := [] |}.

End Runs.

(** ** Two payment requests that overlap

    Two admins request the payment of the first play of the sample, at
    2000 and at 2500.  Both queries are answered while the transaction
    is pending.  The write of the first request lands and its callback
    completes the payment at 7000; the write of the second request,
    held up until then, lands after it. *)

Module Overlap.

Import Routes.

Definition first : Action :=
  PaymentArrives (Sample.env 2000 Sample.unknown_id) Sample.admin
                 (Sample.pay [Sample.tx1]).

Definition second : Action :=
  PaymentArrives (Sample.env 2500 Sample.unknown_id) Sample.admin
                 (Sample.pay [Sample.tx1]).

Definition after (actions : list Action) (sv : Server) : Server :=
  match schedule actions sv with
  | Some sv' => sv'
  | None => sv
  end.

(** Both queries are answered. *)
Definition queried : Server :=
  after [first; second] (Runs.server Sample.played).

(** The first request writes and answers, its callback fires and
    completes the payment. *)
Definition settled : Server :=
  after [ InitiationLands 0; PaymentAnswers 0;
          TimerFires (Sample.env 7000 Sample.unknown_id) 0;
          CompletionLands 1 0; CompletionLands 1 0 ]
        queried.

(** The write of the second request lands. *)
Definition overwritten : Server :=
  after [InitiationLands 0] settled.

(** The whole, from the empty server. *)
Definition actions : list Action :=
  firstn 4 Runs.alone
  ++ [ first; second; InitiationLands 0; PaymentAnswers 0;
       TimerFires (Sample.env 7000 Sample.unknown_id) 0;
       CompletionLands 1 0; CompletionLands 1 0; InitiationLands 0 ].

(** The transaction as the first callback and as the late write leave
    it. *)
Definition completed : RoyaltyTransaction.Doc :=
  nth 0 (Ledger.held settled) Sample.recorded.

Definition late : RoyaltyTransaction.Doc :=
  nth 0 (Ledger.held overwritten) Sample.recorded.

End Overlap.

(** ** The catalog routes

    The routes of the Music collection that decide whether a work can
    be played: the approval and the rejection of a work by an admin,
    and the query of the library.  A Music document carries here the
    fields the royalty routes read; the other fields these routes
    touch ([publishedAt], [metadata]) are outside it. *)

Module Catalog.

Inductive Reply :=
| Failure (status : nat) (message code : string)
| Approved (music : Music.Doc)
| Rejected (music : Music.Doc).

(** [$set: { status: ..., 'lmkInfo.complianceStatus': ... }] *)
Definition set_review (status complianceStatus : string) (m : Music.Doc)
  : Music.Doc :=
  let lmkInfo := Music.lmkInfo m in
  {| Music._id := Music._id m;
     Music.artist := Music.artist m;
     Music.duration := Music.duration m;
     Music.lmkInfo :=
       {| Music.publishers := Music.publishers lmkInfo;
          Music.composers := Music.composers lmkInfo;
          Music.lyricists := Music.lyricists lmkInfo;
          Music.complianceStatus := complianceStatus;
          Music.royaltyRate := Music.royaltyRate lmkInfo |};
     Music.allowedBusinessTypes := Music.allowedBusinessTypes m;
     Music.analytics := Music.analytics m;
     Music.status := status;
     Music.isActive := Music.isActive m |}.

(** [Music.findByIdAndUpdate(id, update, { new: true })]: the updated
    document, if one has that [_id], and the collection it leaves. *)
Fixpoint findByIdAndUpdate (id : Js.ObjectId) (update : Music.Doc -> Music.Doc)
         (collection : list Music.Doc)
  : option Music.Doc * list Music.Doc :=
  match collection with
  | [] => (None, [])
  | m :: rest =>
      if String.eqb (Music._id m) id then (Some (update m), update m :: rest)
      else
        let '(found, rest') := findByIdAndUpdate id update rest in
        (found, m :: rest')
  end.

Definition with_musics (musics : list Music.Doc) (s : Routes.State)
  : Routes.State :=
  {| Routes.royaltyTransactions := Routes.royaltyTransactions s;
     Routes.musics := musics;
     Routes.timers := Routes.timers s |}.

(** PUT /:id/approve *)
Definition put_approve (env : Routes.Env) (id : Js.ObjectId) (s : Routes.State)
  : Reply * Routes.State :=
  if Routes.updateOk env then
    match findByIdAndUpdate id (set_review "published" "approved")
                            (Routes.musics s) with
    | (None, _) => (Failure 404 "Music not found" "MUSIC_NOT_FOUND", s)
    | (Some music, musics) => (Approved music, with_musics musics s)
    end
  else (Failure 500 "Failed to approve music" "APPROVAL_ERROR", s).

(** PUT /:id/reject *)
Definition put_reject (env : Routes.Env) (id : Js.ObjectId) (s : Routes.State)
  : Reply * Routes.State :=
  if Routes.updateOk env then
    match findByIdAndUpdate id (set_review "archived" "rejected")
                            (Routes.musics s) with
    | (None, _) => (Failure 404 "Music not found" "MUSIC_NOT_FOUND", s)
    | (Some music, musics) => (Rejected music, with_musics musics s)
    end
  else (Failure 500 "Failed to reject music" "REJECTION_ERROR", s).

(** [Music.findCompliantMusic()] *)
Definition findCompliantMusic (collection : list Music.Doc)
  : list Music.Doc :=
  filter (fun m =>
            String.eqb (Music.status m) "published"
            && Music.isActive m
            && String.eqb (Music.complianceStatus (Music.lmkInfo m))
                          "approved")
         collection.

Section Library.

(** The filters of GET / on genre, mood, tempo, explicit content and
    text, which read fields outside this model. *)
Variable other_filters : Music.Doc -> bool.

(** The documents the [query] object of GET / matches, for the
    [businessType] of the request (a string, when given). *)
Definition library_query (businessType : option string) (m : Music.Doc)
  : bool :=
  String.eqb (Music.status m) "published"
  && Music.isActive m
  && String.eqb (Music.complianceStatus (Music.lmkInfo m)) "approved"
  && (if Js.not_string businessType then true
      else Nat.eqb (List.length (Music.allowedBusinessTypes m)) 0
           || Js.includes_undefined (Music.allowedBusinessTypes m)
                                    businessType)
  && other_filters m.

End Library.

End Catalog.

(** ** The authorization middleware *)

Module Auth.

(** [req.user], as the middleware reads it: the user document with its
    role, its verification flag, [businessInfo?.licenseStatus] and
    [artistInfo?.lmkMemberNumber]. *)
Record Account := {
  doc : User.Doc;
  role : string;
  isVerified : bool;
  licenseStatus : option string;
  lmkMemberNumber : option string
}.

(** [hasValidLicense()] of the User model. *)
Definition hasValidLicense (this : Account) : bool :=
  if negb (String.eqb (role this) "business") then false
  else match licenseStatus this with
       | Some status => String.eqb status "active"
       | None => false
       end.

(** What a refusal adds to its message and code. *)
Inductive Extra :=
| NoExtra
| Roles (requiredRoles : list string) (userRole : string)
| License (licenseStatus : option string).

Record Denial := {
  status : nat;
  message : string;
  code : string;
  extra : Extra
}.

(** A middleware calls [next()] or answers. *)
Inductive Outcome :=
| Next
| Deny (d : Denial).

(** The argument of [requireRole]: one role or an array of roles. *)
Inductive RoleSpec :=
| OneRole (r : string)
| AnyRole (rs : list string).

Definition requireRole (roles : RoleSpec) (user : option Account) : Outcome :=
  match user with
  | None =>
      Deny {| status := 401; message := "Authentication required";
              code := "AUTH_REQUIRED"; extra := NoExtra |}
  | Some user =>
      let userRole := role user in
      let allowedRoles := match roles with
                          | AnyRole rs => rs
                          | OneRole r => [r]
                          end in
      if negb (Js.includes allowedRoles userRole) then
        Deny {| status := 403;
                message := ("Access denied. Required role: "
                            ++ String.concat " or " allowedRoles)%string;
                code := "INSUFFICIENT_PERMISSIONS";
                extra := Roles allowedRoles userRole |}
      else Next
  end.

Definition requireBusinessLicense (user : option Account) : Outcome :=
  match user with
  | None =>
      Deny {| status := 403; message := "Business account required";
              code := "BUSINESS_ACCOUNT_REQUIRED"; extra := NoExtra |}
  | Some user =>
      if negb (String.eqb (role user) "business") then
        Deny {| status := 403; message := "Business account required";
                code := "BUSINESS_ACCOUNT_REQUIRED"; extra := NoExtra |}
      else if negb (hasValidLicense user) then
        Deny {| status := 403; message := "Valid business license required";
                code := "INVALID_LICENSE";
                extra := License (licenseStatus user) |}
      else Next
  end.

Definition requireArtistVerification (user : option Account) : Outcome :=
  match user with
  | None =>
      Deny {| status := 403; message := "Artist account required";
              code := "ARTIST_ACCOUNT_REQUIRED"; extra := NoExtra |}
  | Some user =>
      if negb (String.eqb (role user) "artist") then
        Deny {| status := 403; message := "Artist account required";
                code := "ARTIST_ACCOUNT_REQUIRED"; extra := NoExtra |}
      else if negb (isVerified user) then
        Deny {| status := 403; message := "Artist verification required";
                code := "ARTIST_VERIFICATION_REQUIRED"; extra := NoExtra |}
      else if Js.not_string (lmkMemberNumber user) then
        Deny {| status := 403;
                message := "LMK member number required for royalty compliance";
                code := "LMK_MEMBER_REQUIRED"; extra := NoExtra |}
      else Next
  end.

(** *** The routes behind their middleware *)

(** The answer of a route: that of its middleware or of its handler. *)
Inductive Answer (A : Type) :=
| Denied (d : Denial)
| Handled (a : A).

Arguments Denied {A} d.
Arguments Handled {A} a.

(** [router.post('/play', requireBusinessLicense, ...)].  The handler
    reads [req.user]; the middleware lets no request without a user
    through, for which the read would throw and be caught. *)
Definition play (env : Routes.Env) (user : option Account)
           (req : Routes.PlayBody.t) (s : Routes.State)
  : Answer Routes.Response * Routes.State :=
  match requireBusinessLicense user with
  | Deny d => (Denied d, s)
  | Next =>
      match user with
      | Some account =>
          let '(r, s') := Routes.post_play env (doc account) req s in
          (Handled r, s')
      | None => (Handled Routes.play_record_error, s)
      end
  end.

(** [router.post('/process-payment', requireRole('admin'), ...)] *)
Definition process_payment (env : Routes.Env) (user : option Account)
           (req : Routes.PaymentBody.t) (s : Routes.State)
  : Answer Routes.Response * Routes.State :=
  match requireRole (OneRole "admin") user with
  | Deny d => (Denied d, s)
  | Next =>
      match user with
      | Some account =>
          let '(r, s') :=
            Routes.post_process_payment env (doc account) req s in
          (Handled r, s')
      | None =>
          (Handled {| Routes.statusCode := 500;
                      Routes.body := Routes.Message "Failed to process payment"
                                       "PAYMENT_PROCESS_ERROR" |}, s)
      end
  end.

(** [router.put('/:id/approve', requireRole('admin'), ...)] and
    [router.put('/:id/reject', requireRole('admin'), ...)] *)
Definition approve (env : Routes.Env) (user : option Account)
           (id : Js.ObjectId) (s : Routes.State)
  : Answer Catalog.Reply * Routes.State :=
  match requireRole (OneRole "admin") user with
  | Next => let '(r, s') := Catalog.put_approve env id s in (Handled r, s')
  | Deny d => (Denied d, s)
  end.

Definition reject (env : Routes.Env) (user : option Account)
           (id : Js.ObjectId) (s : Routes.State)
  : Answer Catalog.Reply * Routes.State :=
  match requireRole (OneRole "admin") user with
  | Next => let '(r, s') := Catalog.put_reject env id s in (Handled r, s')
  | Deny d => (Denied d, s)
  end.

End Auth.

(** ** The rate limiter

    [rateLimitByUser(maxRequests, windowMs)] keeps, in a Map of its
    closure, the times of the requests it let through for each key.
    The Map is a list of entries in insertion order; a key is the id of
    the user or else the address of the request, and may be
    undefined. *)

Module RateLimit.

Local Open Scope Z_scope.

Definition Key := option string.

Definition key_eqb (a b : Key) : bool :=
  match a, b with
  | Some x, Some y => String.eqb x y
  | None, None => true
  | _, _ => false
  end.

Definition Requests := list (Key * list Z).

(** [requests.get(key)]; [None] when [requests.has(key)] is false. *)
Fixpoint get (key : Key) (requests : Requests) : option (list Z) :=
  match requests with
  | [] => None
  | (k, times) :: rest => if key_eqb k key then Some times else get key rest
  end.

(** [requests.set(key, times)] *)
Fixpoint set (key : Key) (times : list Z) (requests : Requests) : Requests :=
  match requests with
  | [] => [(key, times)]
  | (k, old) :: rest =>
      if key_eqb k key then (k, times) :: rest
      else (k, old) :: set key times rest
  end.

Record Request := {
  user_id : option string;   (* req.user?.id *)
  ip : option string         (* req.ip *)
}.

Inductive Outcome :=
| Next
| TooManyRequests (retryAfter : Z).

(** [Math.ceil(windowMs / 1000)] on an integral window. *)
Definition retry_after (windowMs : Z) : Z := - ((- windowMs) / 1000).

(** One run of the middleware at time [now], on the Map it leaves. *)
Definition rateLimitByUser (maxRequests windowMs : Z) (now : Z)
           (req : Request) (requests : Requests) : Outcome * Requests :=
  let userId := Js.or_string (user_id req) (ip req) in
  let windowStart := now - windowMs in
  let requests :=
    match get userId requests with
    | Some times =>
        set userId (filter (fun time => windowStart <? time) times) requests
    | None => set userId [] requests
    end in
  let userRequests := match get userId requests with
                      | Some times => times
                      | None => []
                      end in
  if maxRequests <=? Z.of_nat (List.length userRequests) then
    (TooManyRequests (retry_after windowMs), requests)
  else (Next, set userId (userRequests ++ [now]) requests).

(** The middleware over the requests of a server, in the order they
    arrive, each with its time: the log of the keys, times and
    outcomes, and the Map left. *)
Fixpoint serve (maxRequests windowMs : Z) (arrivals : list (Z * Request))
         (log : list (Key * Z * Outcome)) (requests : Requests)
  : list (Key * Z * Outcome) * Requests :=
  match arrivals with
  | [] => (log, requests)
  | (now, req) :: rest =>
      let '(outcome, requests') :=
        rateLimitByUser maxRequests windowMs now req requests in
      serve maxRequests windowMs rest
        (log ++ [(Js.or_string (user_id req) (ip req), now, outcome)])
        requests'
  end.

(** The times at which the requests of [key] were let through. *)
Definition passed (key : Key) (log : list (Key * Z * Outcome)) : list Z :=
  flat_map (fun entry =>
              match entry with
              | (k, time, Next) => if key_eqb k key then [time] else []
              | _ => []
              end)
           log.

(** The times of the arrivals never go back. *)
Fixpoint in_order (from : Z) (arrivals : list (Z * Request)) : Prop :=
  match arrivals with
  | [] => True
  | (now, _) :: rest => from <= now /\ in_order now rest
  end.

(** The requests of [key] let through after time [since]. *)
Definition recent (since : Z) (times : list Z) : list Z :=
  filter (fun time => since <? time) times.

(** The Map agrees with the log at time [last]: the times it holds for
    a key are those let through, as far as they are later than
    [last - windowMs], and they are no more than [maxRequests]. *)
Definition agrees (maxRequests windowMs last : Z)
           (log : list (Key * Z * Outcome)) (requests : Requests) : Prop :=
  forall key,
    match get key requests with
    | Some times =>
        (times = [] \/ Z.of_nat (List.length times) <= maxRequests)
        /\ forall since, last - windowMs <= since ->
                         recent since times = recent since (passed key log)
    | None => passed key log = []
    end.

(** Every entry of the log was let through exactly when fewer than
    [maxRequests] requests of its key had been let through in the
    [windowMs] before it. *)
Definition exact (maxRequests windowMs : Z) (log : list (Key * Z * Outcome))
  : Prop :=
  forall before key time outcome after,
    log = before ++ (key, time, outcome) :: after ->
    (outcome = Next
     <-> Z.of_nat (List.length (recent (time - windowMs) (passed key before)))
         < maxRequests).

End RateLimit.

(** ** Sample accounts *)

Module Accounts.

Definition cafe : Auth.Account :=
  {| Auth.doc := Sample.cafe; Auth.role := "business";
     Auth.isVerified := true; Auth.licenseStatus := Some "active";
     Auth.lmkMemberNumber := None |}.

(** The same business with its license suspended. *)
Definition suspended : Auth.Account :=
  {| Auth.doc := Sample.cafe; Auth.role := "business";
     Auth.isVerified := true; Auth.licenseStatus := Some "suspended";
     Auth.lmkMemberNumber := None |}.

Definition admin : Auth.Account :=
  {| Auth.doc := Sample.admin; Auth.role := "admin";
     Auth.isVerified := true; Auth.licenseStatus := None;
     Auth.lmkMemberNumber := None |}.

(** Three requests of one address, a second apart. *)
Definition visitor : RateLimit.Request :=
  {| RateLimit.user_id := None; RateLimit.ip := Some "10.0.0.7" |}.

Definition arrivals : list (Z * RateLimit.Request) :=
  [(1000%Z, visitor); (2000%Z, visitor); (3000%Z, visitor)].

End Accounts.

(** ** Summaries and reports

    The aggregations over the ledger: [getRoyaltySummary] of the model
    and the routes GET /summary and GET /lmk-report.  The accumulators
    [$sum] and [$avg] over Numbers are those of the database server;
    they are taken as given.  A window is given by its parsed dates. *)

From Stdlib Require Import Sorted.

Module Reports.

Module RT := RoyaltyTransaction.

Local Open Scope Z_scope.

(** The answer of a reading route: its body, or the error of its
    [catch]. *)
Inductive Reply (A : Type) :=
| Ok (body : A)
| Error (status : nat) (message code : string).

Arguments Ok {A} body.
Arguments Error {A} status message code.


(** ['playInfo.playDate': { $gte: startDate, $lte: endDate }] *)
Definition in_window (startDate endDate : Js.Date) (t : RT.Doc) : bool :=
  (startDate <=? RT.playDate (RT.playInfo t))
  && (RT.playDate (RT.playInfo t) <=? endDate).

(** The values [$addToSet] gathers: each once. *)
Definition addToSet (ids : list Js.ObjectId) : list Js.ObjectId :=
  nodup string_dec ids.

Module Summary.
Record Row := {
  totalTransactions : nat;
  totalRoyalties : float;
  totalPlays : nat;
  averageRoyaltyPerPlay : float;
  uniqueBusinessCount : nat;
  uniqueArtistCount : nat;
  uniqueSongCount : nat
}.
End Summary.

(** [{ total..., count }] of the pending and of the overdue payments. *)
Module Totals.
Record t := { total : float; count : nat }.
End Totals.

Module Report.
Record Row := {
  _id : string;
  count : nat;
  totalRoyalties : float;
  totalLMKFees : float
}.
End Report.







Section Accumulators.

Variables sum avg : list float -> float.

Definition amounts (ts : list RT.Doc) : list float :=
  map (fun t => RT.calculatedAmount (RT.royaltyInfo t)) ts.


(** [getRoyaltySummary(startDate, endDate, filters)]: the rows of the
    aggregation, none when no transaction matches.  [filters] are the
    conditions on paths other than the play date. *)
Definition getRoyaltySummary (startDate endDate : Js.Date)
           (filters : RT.Doc -> bool) (collection : list RT.Doc)
  : list Summary.Row :=
  let matched :=
    filter (fun t => in_window startDate endDate t && filters t) collection in
  match matched with
  | [] => []
  | _ :: _ =>
      [ {| Summary.totalTransactions := List.length matched;
           Summary.totalRoyalties := sum (amounts matched);
           Summary.totalPlays := List.length matched;
           Summary.averageRoyaltyPerPlay := avg (amounts matched);
           Summary.uniqueBusinessCount :=
             List.length (addToSet (map RT.business matched));
           Summary.uniqueArtistCount :=
             List.length (addToSet (map RT.artist matched));
           Summary.uniqueSongCount :=
             List.length (addToSet (map RT.music matched)) |} ]
  end.








End Accumulators.

End Reports.

(** * Properties *)

Module RT := RoyaltyTransaction.

(** ** Lists *)

Lemma app_one_neq {A} (l : list A) (x : A) : l <> l ++ [x].
Proof.
  intro H. apply (f_equal (@List.length A)) in H.
  rewrite length_app in H. simpl in H. lia.
Qed.

(** ** The royalty calculator *)

Lemma calculateRoyalty_default (music : Music.Doc) :
  Music.calculateRoyalty music None
  = Music.calculateRoyalty music (Some "background").
Proof. reflexivity. Qed.

Lemma calculateRoyalty_commercial (music : Music.Doc) :
  Music.calculateRoyalty music (Some "commercial")
  = Music.synchronization (Music.royaltyRate (Music.lmkInfo music)).
Proof. reflexivity. Qed.



(** ** POST /play *)

Lemma save_inv env doc collection saved :
  Routes.save env doc collection = Some saved ->
  RT.validate doc = true
  /\ Routes.saveOk env = true
  /\ existsb (fun t => String.eqb (RT._id t) (RT._id doc)) collection = false
  /\ saved = collection ++ [RT.with_updatedAt (Routes.now env) doc].
Proof.
  unfold Routes.save. intro H.
  destruct (RT.validate doc); [|discriminate].
  destruct (Routes.saveOk env); [|discriminate].
  destruct (existsb _ collection); [discriminate|].
  simpl in H. injection H as <-. auto.
Qed.

(** A run of the handler leaves the ledger as it was, or it found the
    work available, built the transaction and saved it. *)
Lemma post_play_ledger env user req s :
  let s' := snd (Routes.post_play env user req s) in
  (s' = s /\ Routes.statusCode (fst (Routes.post_play env user req s)) <> 201)
  \/ exists musicId music artist,
       Routes.PlayBody.musicId req = Some musicId
       /\ Routes.findById musicId (Routes.musics s) = Some music
       /\ Music.isAvailableForBusiness music
            (User.businessType (User.businessInfo user)) = true
       /\ Music.artist music = Some artist
       /\ Routes.save env
            (Routes.new_RoyaltyTransaction env user req musicId music artist)
            (Routes.royaltyTransactions s)
          = Some (Routes.royaltyTransactions s')
       /\ Routes.timers s' = Routes.timers s.
Proof.
  unfold Routes.post_play.
  destruct (Routes.PlayBody.musicId req) as [[|c musicId]|];
    [left; split; [reflexivity|discriminate] | |
     left; split; [reflexivity|discriminate]].
  destruct (Routes.findById _ _) as [music|] eqn:Hfind;
    [|left; split; [reflexivity|discriminate]].
  destruct (Music.isAvailableForBusiness music _) eqn:Havail;
    [|left; split; [reflexivity|discriminate]].
  cbn [negb].
  destruct (Music.artist music) as [artist|] eqn:Hartist;
    [|left; split; [reflexivity|discriminate]].
  destruct (Routes.save _ _ _) as [saved|] eqn:Hsave;
    [|left; split; [reflexivity|discriminate]].
  right. exists (String c musicId), music, artist.
  cbn [Routes.musics Routes.royaltyTransactions Routes.timers].
  destruct (Routes.findByIdAndUpdate _ _ _); cbn; auto 10.
Qed.



(** ** The distribution of a play *)

Section Scenarios.

Variable music : Music.Doc.
Variables p1 p2 : Music.RightsHolder.

Let lmkInfo := Music.lmkInfo music.
Let calculatedAmount := Music.calculateRoyalty music (Some "commercial").
Let d := Routes.distribution calculatedAmount music.

Hypothesis synchronization_5000 :
  Music.synchronization (Music.royaltyRate lmkInfo) = 5000%float.
Hypothesis two_publishers : Music.publishers lmkInfo = [p1; p2].
Hypothesis no_composers : Music.composers lmkInfo = [].
Hypothesis no_lyricists : Music.lyricists lmkInfo = [].

(** C5.  A commercial play of a work whose synchronization rate is
    5000, with two publishers of share 50 each and no composer or
    lyricist: the artist gets 3500, each publisher 375, the LMK fee is
    250 and the platform fee 500, and all the amounts add up to the
    calculated amount, 5000. *)
Theorem distribution_conserved :
  Music.sharePercentage p1 = 50%float ->
  Music.sharePercentage p2 = 50%float ->
  calculatedAmount = 5000%float
  /\ RT.Share.amount (RT.Distribution.artist d) = 3500%float
  /\ map RT.Holder.amount (RT.Distribution.publishers d)
     = [375%float; 375%float]
  /\ RT.sum_amounts (RT.Distribution.publishers d) = 750%float
  /\ RT.Distribution.composers d = []
  /\ RT.Distribution.lyricists d = []
  /\ RT.Share.amount (RT.Distribution.lmkFee d) = 250%float
  /\ RT.Share.amount (RT.Distribution.platformFee d) = 500%float
  /\ RT.total_disbursed d = calculatedAmount.
Proof.
  intros Hp1 Hp2.
  assert (Hamount : calculatedAmount = 5000%float)
    by (subst calculatedAmount; rewrite calculateRoyalty_commercial;
        exact synchronization_5000).
  subst d. rewrite Hamount.
  unfold RT.total_disbursed, RT.sum_amounts, Routes.distribution.
  fold lmkInfo. rewrite two_publishers, no_composers, no_lyricists.
  cbn [map RT.Distribution.artist RT.Distribution.publishers
       RT.Distribution.composers RT.Distribution.lyricists
       RT.Distribution.lmkFee RT.Distribution.platformFee
       RT.Share.amount RT.Holder.amount Routes.holder_share fold_left].
  rewrite Hp1, Hp2. repeat split.
Qed.

(** C6.  The same play when the two publishers have share 100 each:
    each publisher gets 750, and the amounts add up to 5750, more than
    the calculated amount, 5000.  Nothing normalizes the shares of the
    payees. *)
Theorem distribution_overallocated :
  Music.sharePercentage p1 = 100%float ->
  Music.sharePercentage p2 = 100%float ->
  calculatedAmount = 5000%float
  /\ map RT.Holder.amount (RT.Distribution.publishers d)
     = [750%float; 750%float]
  /\ RT.sum_amounts (RT.Distribution.publishers d) = 1500%float
  /\ RT.total_disbursed d = 5750%float
  /\ PrimFloat.ltb calculatedAmount (RT.total_disbursed d) = true.
Proof.
  intros Hp1 Hp2.
  assert (Hamount : calculatedAmount = 5000%float)
    by (subst calculatedAmount; rewrite calculateRoyalty_commercial;
        exact synchronization_5000).
  subst d. rewrite Hamount.
  unfold RT.total_disbursed, RT.sum_amounts, Routes.distribution.
  fold lmkInfo. rewrite two_publishers, no_composers, no_lyricists.
  cbn [map RT.Distribution.artist RT.Distribution.publishers
       RT.Distribution.composers RT.Distribution.lyricists
       RT.Distribution.lmkFee RT.Distribution.platformFee
       RT.Share.amount RT.Holder.amount Routes.holder_share fold_left].
  rewrite Hp1, Hp2. repeat split.
Qed.

End Scenarios.

Lemma distribution_conserved_witness :
  RT.total_disbursed
    (Routes.distribution 5000%float (Sample.work 50%float))
  = 5000%float.
Proof.
  destruct (distribution_conserved (Sample.work 50%float)
              (Sample.holder "P1" 50%float) (Sample.holder "P2" 50%float)
              eq_refl eq_refl eq_refl eq_refl eq_refl eq_refl)
    as (_ & _ & _ & _ & _ & _ & _ & _ & Htotal).
  exact Htotal.
Defined.

Lemma distribution_overallocated_witness :
  RT.total_disbursed
    (Routes.distribution 5000%float (Sample.work 100%float))
  = 5750%float.
Proof.
  destruct (distribution_overallocated (Sample.work 100%float)
              (Sample.holder "P1" 100%float) (Sample.holder "P2" 100%float)
              eq_refl eq_refl eq_refl eq_refl eq_refl eq_refl)
    as (_ & _ & _ & Htotal & _).
  exact Htotal.
Defined.

(** The transaction recorded for the play of C5, as the handler leaves it
    in the ledger: the rights holders' total of [calculateTotalRoyalty]
    is 4250, the fees being apart. *)
Example recorded_conserved :
  Routes.royaltyTransactions Sample.played
  = [RT.with_updatedAt 1000%Z Sample.recorded]
  /\ RT.total_disbursed (RT.distribution (RT.royaltyInfo Sample.recorded))
     = 5000%float
  /\ RT.calculateTotalRoyalty Sample.recorded = 4250%float.
Proof. repeat split. Qed.

(** ** Overdue payments *)

Lemma days_le_30 (ms : Z) :
  (inject_Z ms / inject_Z (1000 * 60 * 60 * 24) <= inject_Z 30)%Q
  <-> (ms <= 30 * (24 * 60 * 60 * 1000))%Z.
Proof.
  unfold Qle, Qdiv, Qmult, Qinv, inject_Z. simpl. lia.
Qed.

(** C9.  A transaction is overdue exactly when its payment is not
    completed and more than 30 days of 24 hours have passed since the
    play: it is not overdue at 30 days to the millisecond, and a
    completed transaction is never overdue. *)
Theorem isPaymentOverdue_iff :
  forall (now : Js.Date) (t : RT.Doc),
    let age := (now - RT.playDate (RT.playInfo t))%Z in
    (RT.isPaymentOverdue now t = true
     <-> RT.status (RT.paymentInfo t) <> "completed"
         /\ (age > 30 * (24 * 60 * 60 * 1000))%Z)
    /\ (age = 30 * (24 * 60 * 60 * 1000)%Z -> RT.isPaymentOverdue now t = false)%Z
    /\ (RT.status (RT.paymentInfo t) = "completed" ->
        RT.isPaymentOverdue now t = false).
Proof.
  intros now t age.
  assert (Hiff : RT.isPaymentOverdue now t = true
                 <-> RT.status (RT.paymentInfo t) <> "completed"
                     /\ (age > 30 * (24 * 60 * 60 * 1000))%Z).
  { unfold RT.isPaymentOverdue. fold age.
    destruct (String.eqb_spec (RT.status (RT.paymentInfo t)) "completed")
      as [Hc|Hc].
    - split; [discriminate|]. intros [Hn _]. contradiction.
    - rewrite negb_true_iff, <- not_true_iff_false, Qle_bool_iff, days_le_30.
      split; [intro H; split; [exact Hc|lia] | intros [_ H]; lia]. }
  split; [exact Hiff|]. split.
  - intro Hage. apply not_true_iff_false. rewrite Hiff. lia.
  - intro Hc. apply not_true_iff_false. rewrite Hiff. tauto.
Qed.

(** The comparison of the processor, on its rounded quotient, at the
    boundary and one millisecond past it. *)
Example overdue_boundary_binary64 :
  PrimFloat.ltb 30 (2592000000 / (1000 * 60 * 60 * 24)) = false
  /\ PrimFloat.ltb 30 (2592000001 / (1000 * 60 * 60 * 24)) = true.
Proof. split; reflexivity. Qed.

(** ** Recording a play *)

(** C8.  Recording a play is all or nothing on the ledger side: when
    the save of the transaction fails, the handler answers with the
    error and leaves the database as it was; a run that adds no
    transaction changes no play counter; and a run that changes the
    catalog has saved its transaction. *)
Theorem post_play_atomic :
  forall env user req s,
    let r := Routes.post_play env user req s in
    (forall musicId music artist,
        Routes.PlayBody.musicId req = Some musicId ->
        musicId <> "" ->
        Routes.findById musicId (Routes.musics s) = Some music ->
        Music.isAvailableForBusiness music
          (User.businessType (User.businessInfo user)) = true ->
        Music.artist music = Some artist ->
        Routes.save env
          (Routes.new_RoyaltyTransaction env user req musicId music artist)
          (Routes.royaltyTransactions s) = None ->
        r = (Routes.play_record_error, s))
    /\ (Routes.royaltyTransactions (snd r) = Routes.royaltyTransactions s ->
        snd r = s)
    /\ (Routes.musics (snd r) <> Routes.musics s ->
        exists t,
          Routes.royaltyTransactions (snd r)
          = Routes.royaltyTransactions s ++ [t]).
Proof.
  intros env user req s r. split; [|split].
  - intros musicId music artist Hid Hne Hfind Havail Hartist Hsave.
    subst r. unfold Routes.post_play. rewrite Hid.
    destruct musicId as [|c musicId]; [contradiction|].
    rewrite Hfind, Havail. cbn [negb]. rewrite Hartist, Hsave. reflexivity.
  - intro Hsame.
    destruct (post_play_ledger env user req s)
      as [[Hs _] | (musicId & music & artist & _ & _ & _ & _ & Hsave & _)];
      [exact Hs|].
    apply save_inv in Hsave. destruct Hsave as (_ & _ & _ & Hsaved).
    fold r in Hsaved. rewrite Hsame in Hsaved.
    destruct (app_one_neq _ _ Hsaved).
  - intro Hmusics.
    destruct (post_play_ledger env user req s)
      as [[Hs _] | (musicId & music & artist & _ & _ & _ & _ & Hsave & _)].
    + fold r in Hs. rewrite Hs in Hmusics. contradiction.
    + apply save_inv in Hsave. destruct Hsave as (_ & _ & _ & Hsaved).
      eexists. exact Hsaved.
Qed.

(** A play of type ['performance'] gets the performance rate, and the
    schema's enum then rejects the document at [save]: nothing is
    written. *)
Lemma post_play_atomic_witness :
  Routes.post_play (Sample.env 1000 Sample.tx1) Sample.cafe
    (Sample.play (Some "performance")) Sample.catalog
  = (Routes.play_record_error, Sample.catalog).
Proof.
  refine (proj1 (post_play_atomic (Sample.env 1000 Sample.tx1) Sample.cafe
                   (Sample.play (Some "performance"))
                   Sample.catalog)
                Sample.work_id (Sample.work 50%float) Sample.artist_id
                eq_refl _ eq_refl eq_refl eq_refl eq_refl).
  discriminate.
Defined.

(** ** Update documents *)

Lemma same_record_refl (t : RT.Doc) : Ledger.same_record t t.
Proof. unfold Ledger.same_record. auto 10. Qed.

Lemma same_record_trans (t1 t2 t3 : RT.Doc) :
  Ledger.same_record t1 t2 -> Ledger.same_record t2 t3 ->
  Ledger.same_record t1 t3.
Proof.
  unfold Ledger.same_record.
  intros (H1 & H2 & H3 & H4 & H5 & H6 & H7 & H8)
         (K1 & K2 & K3 & K4 & K5 & K6 & K7 & K8).
  rewrite K1, K2, K3, K4, K5, K6, K7, K8. auto 10.
Qed.

(** No operator writes a field of the record itself: identity, play and
    royalty information stay as they were created. *)
Lemma set_path_same_record now p v t t' :
  Mongo.set_path now p v t = Some t' -> Ledger.same_record t t'.
Proof.
  unfold Mongo.set_path, Mongo.castDocumentArray.
  destruct p, v; cbn; try discriminate;
    intros [= <-]; unfold Ledger.same_record; cbn; auto 10.
Qed.

Lemma push_path_same_record now p v t t' :
  Mongo.push_path now p v t = Some t' -> Ledger.same_record t t'.
Proof.
  unfold Mongo.push_path.
  destruct p, v; cbn; try discriminate;
    intros [= <-]; unfold Ledger.same_record; cbn; auto 10.
Qed.

Lemma apply_fields_same_record f fields :
  (forall p v t t', f p v t = Some t' -> Ledger.same_record t t') ->
  forall t t',
    Mongo.apply_fields f fields t = Some t' -> Ledger.same_record t t'.
Proof.
  intro Hf. induction fields as [|[p v] fields IH]; cbn; intros t t' H.
  - injection H as <-. apply same_record_refl.
  - destruct (f p v t) as [t1|] eqn:H1; [|discriminate].
    eapply same_record_trans; eauto.
Qed.

Lemma applyUpdate_same_record now u :
  forall t t', Mongo.applyUpdate now u t = Some t' -> Ledger.same_record t t'.
Proof.
  induction u as [|c u IH]; cbn; intros t t' H.
  - injection H as <-. apply same_record_refl.
  - destruct (Mongo.apply_clause now c t) as [t1|] eqn:H1; [|discriminate].
    apply same_record_trans with t1; [|eauto].
    destruct c as [p v|fields|fields]; cbn in H1.
    + eapply set_path_same_record; eauto.
    + eapply apply_fields_same_record; [|eauto].
      intros; eapply set_path_same_record; eauto.
    + eapply apply_fields_same_record; [|eauto].
      intros; eapply push_path_same_record; eauto.
Qed.

(** The update of the initiation, on any stored transaction: the four
    payment paths are set, and the audit trail is set to the one
    element the operator object casts to. *)
Lemma applyUpdate_initiate env user paymentMethod transaction t :
  Mongo.applyUpdate (Routes.now env)
    (Routes.initiate_update env user paymentMethod transaction) t
  = Some
      (RT.with_auditTrail
         [ {| RT.action := None; RT.performedBy := None;
              RT.timestamp := Routes.now env; RT.details := None |} ]
         (RT.with_paymentInfo
            {| RT.status := "processing";
               RT.paymentDate := Some (Routes.now env);
               RT.paymentMethod := paymentMethod;
               RT.transactionId :=
                 Some ("PAY_" ++ Js.string_of_Z (Routes.now env) ++ "_"
                       ++ Js.slice_last 6 (RT._id transaction))%string |}
            t)).
Proof. reflexivity. Qed.

(** The update of the completion, on any stored transaction. *)
Lemma applyUpdate_completion env user t :
  Mongo.applyUpdate (Routes.now env) (Routes.completion_update env user) t
  = Some (Ledger.completed_by env user t).
Proof. reflexivity. Qed.

(** ** Collections *)

Lemma Forall2_nth_error {A B} (R : A -> B -> Prop) l l' :
  Forall2 R l l' ->
  forall n x, nth_error l n = Some x ->
              exists y, nth_error l' n = Some y /\ R x y.
Proof.
  induction 1 as [|a b l l' Hab _ IH]; intros [|n] x Hn;
    cbn in *; try discriminate.
  - injection Hn as <-. eauto.
  - eauto.
Qed.

Lemma Forall2_refl {A} (R : A -> A -> Prop) (l : list A) :
  (forall x, R x x) -> Forall2 R l l.
Proof. intro HR. induction l; constructor; auto. Qed.

Lemma Forall2_compose {A} (R1 R2 R3 : A -> A -> Prop) l1 l2 :
  (forall x y z, R1 x y -> R2 y z -> R3 x z) ->
  Forall2 R1 l1 l2 ->
  forall l3, Forall2 R2 l2 l3 -> Forall2 R3 l1 l3.
Proof.
  intro Hc. induction 1 as [|a b l1 l2 Hab _ IH]; intros l3 H23;
    inversion H23; subst; constructor; eauto.
Qed.

Lemma unique_ids_eq (collection : list RT.Doc) (a b : RT.Doc) :
  Ledger.unique_ids collection ->
  In a collection -> In b collection -> RT._id a = RT._id b -> a = b.
Proof.
  unfold Ledger.unique_ids.
  induction collection as [|c collection IH]; cbn; [tauto|].
  intros Hnd [Ha|Ha] [Hb|Hb] Hid; inversion Hnd as [|? ? Hnotin Hnd']; subst.
  - reflexivity.
  - exfalso. apply Hnotin. rewrite Hid. now apply in_map.
  - exfalso. apply Hnotin. rewrite <- Hid. now apply in_map.
  - auto.
Qed.

Lemma updateOne_Forall2 (R : RT.Doc -> RT.Doc -> Prop) now id u :
  (forall t, R t t) ->
  (forall t t',
      RT._id t = id -> Mongo.applyUpdate now u t = Some t' -> R t t') ->
  forall collection written,
    Mongo.updateOne now id u collection = Some written ->
    Forall2 R collection written.
Proof.
  intros Hrefl Hupd.
  induction collection as [|t collection IH]; cbn; intros written H.
  - injection H as <-. constructor.
  - destruct (String.eqb_spec (RT._id t) id) as [Hid|Hid].
    + destruct (Mongo.applyUpdate now u t) as [t'|] eqn:Ht; [|discriminate].
      injection H as <-. constructor; [eauto|].
      now apply Forall2_refl.
    + destruct (Mongo.updateOne now id u collection) as [rest|];
        [|discriminate].
      injection H as <-. constructor; auto.
Qed.

Lemma updateMany_Forall2 (R : RT.Doc -> RT.Doc -> Prop) now ids u :
  (forall t, R t t) ->
  (forall t t',
      In (RT._id t) ids -> Mongo.applyUpdate now u t = Some t' -> R t t') ->
  forall collection written,
    Mongo.updateMany now ids u collection = Some written ->
    Forall2 R collection written.
Proof.
  intros Hrefl Hupd.
  induction collection as [|t collection IH]; cbn; intros written H.
  - injection H as <-. constructor.
  - destruct (Js.includes ids (RT._id t)) eqn:Hin.
    + destruct (Mongo.applyUpdate now u t) as [t'|] eqn:Ht; [|discriminate].
      destruct (Mongo.updateMany now ids u collection) as [rest|];
        [|discriminate].
      injection H as <-. constructor; [|auto].
      apply Hupd; [|exact Ht].
      unfold Js.includes in Hin. apply existsb_exists in Hin.
      destruct Hin as (x & Hx & Heq). apply String.eqb_eq in Heq.
      now subst x.
    + destruct (Mongo.updateMany now ids u collection) as [rest|];
        [|discriminate].
      injection H as <-. constructor; auto.
Qed.

(** ** POST /process-payment *)

Lemma payment_loop_from env user paymentMethod transactions :
  forall updates totalAmount,
    fold_left
      (fun acc transaction =>
         let '(updates, totalAmount) := acc in
         let totalAmount :=
           (totalAmount
            + RT.calculatedAmount (RT.royaltyInfo transaction))%float in
         let update :=
           Routes.initiate_update env user paymentMethod transaction in
         (updates ++ [ {| Mongo.filter_id := RT._id transaction;
                          Mongo.update := update |} ],
          totalAmount))
      transactions (updates, totalAmount)
    = (updates ++ map (Ledger.initiate_op env user paymentMethod) transactions,
       fold_left (fun sum t =>
                    (sum + RT.calculatedAmount (RT.royaltyInfo t))%float)
                 transactions totalAmount).
Proof.
  induction transactions as [|t transactions IH]; intros updates totalAmount.
  - cbn. now rewrite app_nil_r.
  - cbn [fold_left map]. rewrite IH. rewrite <- app_assoc. reflexivity.
Qed.

(** The loop leaves one [updateOne] per found transaction, in order,
    and the sum of the calculated amounts. *)
Lemma payment_loop_spec env user paymentMethod transactions :
  Routes.payment_loop env user paymentMethod transactions
  = (map (Ledger.initiate_op env user paymentMethod) transactions,
     Ledger.sum_calculatedAmount transactions).
Proof.
  unfold Routes.payment_loop. rewrite payment_loop_from. reflexivity.
Qed.

Lemma initiated_compose id ids t1 t2 t3 :
  Ledger.initiated [id] t1 t2 -> Ledger.initiated ids t2 t3 ->
  Ledger.initiated (id :: ids) t1 t3.
Proof.
  unfold Ledger.initiated.
  intros [->|(Hin1 & Hrec1 & Hlmk1 & Hst1)] [->|(Hin2 & Hrec2 & Hlmk2 & Hst2)].
  - now left.
  - right. refine (conj _ (conj Hrec2 (conj Hlmk2 Hst2))). now right.
  - right. refine (conj _ (conj Hrec1 (conj Hlmk1 Hst1))).
    destruct Hin1 as [<-|[]]. now left.
  - right. refine (conj _ (conj _ (conj _ Hst2))).
    + destruct Hin1 as [<-|[]]. now left.
    + eapply same_record_trans; eauto.
    + congruence.
Qed.

(** The [bulkWrite] of the payment route touches only documents whose
    [_id] is that of a found transaction, and leaves those processing,
    their reporting state as it was. *)
Lemma bulkWrite_initiate env user paymentMethod transactions :
  forall collection written,
    Mongo.bulkWrite (Routes.now env)
      (map (Ledger.initiate_op env user paymentMethod) transactions)
      collection = Some written ->
    Forall2 (Ledger.initiated (map RT._id transactions)) collection written.
Proof.
  induction transactions as [|f transactions IH]; cbn; intros collection written H.
  - injection H as <-. apply Forall2_refl. intro t. now left.
  - destruct (Mongo.updateOne _ _ _ collection) as [collection1|] eqn:H1;
      [|discriminate].
    eapply Forall2_compose; [apply initiated_compose| |apply IH, H].
    eapply updateOne_Forall2; [| |exact H1].
    + intro t. now left.
    + intros t t' Hid Ht. rewrite applyUpdate_initiate in Ht.
      injection Ht as <-. right. repeat split; cbn; auto.
Qed.

Lemma updateOne_total now id u :
  (forall t, exists t', Mongo.applyUpdate now u t = Some t') ->
  forall collection,
    exists written, Mongo.updateOne now id u collection = Some written.
Proof.
  intro Hu. induction collection as [|t collection [rest IH]]; cbn.
  - eauto.
  - destruct (String.eqb (RT._id t) id).
    + destruct (Hu t) as [t' ->]. eauto.
    + rewrite IH. eauto.
Qed.

(** That [bulkWrite] raises no CastError. *)
Lemma bulkWrite_initiate_total env user paymentMethod transactions :
  forall collection,
    exists written,
      Mongo.bulkWrite (Routes.now env)
        (map (Ledger.initiate_op env user paymentMethod) transactions)
        collection = Some written.
Proof.
  induction transactions as [|f transactions IH]; cbn; intro collection.
  - eauto.
  - destruct (updateOne_total (Routes.now env) (RT._id f)
                (Routes.initiate_update env user paymentMethod f)) with
      (collection := collection) as [collection1 ->].
    + intro t. rewrite applyUpdate_initiate. eauto.
    + apply IH.
Qed.

Lemma pending_among_In ids collection t :
  In t (Routes.pending_among ids collection)
  <-> In t collection /\ In (RT._id t) ids
      /\ RT.status (RT.paymentInfo t) = "pending".
Proof.
  unfold Routes.pending_among. rewrite filter_In, andb_true_iff.
  unfold Js.includes. rewrite existsb_exists, String.eqb_eq.
  split.
  - intros (Hin & (x & Hx & Heq) & Hst). apply String.eqb_eq in Heq.
    subst x. auto.
  - intros (Hin & Hid & Hst). repeat split; auto.
    exists (RT._id t). split; [exact Hid|apply String.eqb_refl].
Qed.

(** Under the [_id] index, a document with the [_id] of a found
    transaction is that transaction: it is pending. *)
Lemma found_id_pending ids collection t :
  Ledger.unique_ids collection ->
  In t collection ->
  In (RT._id t) (map RT._id (Routes.pending_among ids collection)) ->
  RT.status (RT.paymentInfo t) = "pending".
Proof.
  intros Huniq Ht Hin. apply in_map_iff in Hin.
  destruct Hin as (f & Hid & Hf). apply pending_among_In in Hf.
  destruct Hf as (Hf & _ & Hst).
  now rewrite <- (unique_ids_eq collection f t Huniq Hf Ht Hid).
Qed.

(** A filter keeps the keys of a collection distinct. *)
Lemma filter_distinct_keys {Doc Key} (key : Doc -> Key) (keep : Doc -> bool) :
  forall docs, NoDup (map key docs) -> NoDup (map key (filter keep docs)).
Proof.
  intro docs. induction docs as [|a l IH]; cbn; intro H; [constructor|].
  inversion H as [|? ? Hnotin Hnd]; subst.
  destruct (keep a); cbn; [constructor|]; auto.
  intro Hin. apply Hnotin. apply in_map_iff in Hin.
  destruct Hin as (x & Hx & Hin). apply filter_In in Hin.
  rewrite <- Hx. apply in_map. tauto.
Qed.

(** Under the [_id] index the found transactions are as many as the
    distinct ids of the request that name a pending transaction. *)
Lemma pending_among_length ids collection :
  Ledger.unique_ids collection ->
  List.length (Routes.pending_among ids collection)
  = List.length (Ledger.pending_ids ids collection).
Proof.
  intro Huniq.
  rewrite <- (length_map RT._id (Routes.pending_among ids collection)).
  apply Permutation_length, NoDup_Permutation.
  - apply filter_distinct_keys, Huniq.
  - apply NoDup_filter, NoDup_nodup.
  - intro id. unfold Ledger.pending_ids.
    rewrite in_map_iff, filter_In, nodup_In, existsb_exists. split.
    + intros (t & <- & Ht). apply pending_among_In in Ht.
      destruct Ht as (Ht & Hid & Hst). split; [exact Hid|].
      exists t. split; [exact Ht|].
      now rewrite String.eqb_refl, Hst.
    + intros (Hid & t & Ht & Hboth). apply andb_true_iff in Hboth.
      destruct Hboth as [Heq Hst].
      apply String.eqb_eq in Heq, Hst. subst id.
      exists t. split; [reflexivity|]. apply pending_among_In. auto.
Qed.

(** A run of the payment route that nothing interrupts leaves the
    ledger as it was, or as its [bulkWrite] left it, with one more
    callback held. *)
Lemma post_process_payment_ledger env user req s :
  let s' := snd (Routes.post_process_payment env user req s) in
  s' = s
  \/ exists transactionIds ids,
       Routes.PaymentBody.transactionIds req = Some transactionIds
       /\ Js.castObjectIds transactionIds = Some ids
       /\ Forall2 (Ledger.initiated
                     (map RT._id
                          (Routes.pending_among ids
                             (Routes.royaltyTransactions s))))
                  (Routes.royaltyTransactions s)
                  (Routes.royaltyTransactions s')
       /\ Routes.musics s' = Routes.musics s.
Proof.
  unfold Routes.post_process_payment, Routes.find_pending.
  destruct (Routes.PaymentBody.transactionIds req) as [transactionIds|];
    [|now left].
  destruct (Js.castObjectIds transactionIds) as [ids|] eqn:Hcast;
    [|now left].
  destruct (Nat.eqb _ 0); [now left|].
  rewrite payment_loop_spec.
  destruct (Routes.updateOk env); [|now left].
  destruct (Mongo.bulkWrite _ _ _) as [written|] eqn:Hbulk; [|now left].
  right. exists transactionIds, ids. cbn.
  split; [reflexivity|]. split; [exact Hcast|]. split; [|reflexivity].
  eapply bulkWrite_initiate, Hbulk.
Qed.

(** The payment route when nothing interrupts its run, on a list of
    values and a ledger under its [_id] index.  When a value is no
    ObjectId the query throws: the answer is 500 and nothing is
    written.  Otherwise the transactions found are the stored ones that
    are listed, by any spelling of their id, and pending, as many as
    the distinct listed ids that name a pending transaction; a stored
    transaction that is not pending is left as it is, whether listed or
    not; the count answered is the number of found transactions and the
    total is the sum of their calculated amounts; and the route does
    answer so when some transaction is found and the database takes the
    write. *)
Lemma process_payment_alone :
  forall env user req s transactionIds,
    Ledger.unique_ids (Routes.royaltyTransactions s) ->
    Routes.PaymentBody.transactionIds req = Some transactionIds ->
    let r := Routes.post_process_payment env user req s in
    (Js.castObjectIds transactionIds = None ->
     r = ({| Routes.statusCode := 500;
             Routes.body := Routes.Message "Failed to process payment"
                              "PAYMENT_PROCESS_ERROR" |}, s))
    /\ (forall n t,
           nth_error (Routes.royaltyTransactions s) n = Some t ->
           RT.status (RT.paymentInfo t) <> "pending" ->
           nth_error (Routes.royaltyTransactions (snd r)) n = Some t)
    /\ forall ids,
         Js.castObjectIds transactionIds = Some ids ->
         let found :=
           Routes.pending_among ids (Routes.royaltyTransactions s) in
         (forall t,
             In t found
             <-> In t (Routes.royaltyTransactions s) /\ In (RT._id t) ids
                 /\ RT.status (RT.paymentInfo t) = "pending")
         /\ List.length found
            = List.length
                (Ledger.pending_ids ids (Routes.royaltyTransactions s))
         /\ (forall processedCount totalAmount currency,
                Routes.body (fst r)
                = Routes.PaymentInitiated processedCount totalAmount
                                          currency ->
                processedCount = List.length found
                /\ totalAmount = Ledger.sum_calculatedAmount found)
         /\ (Routes.updateOk env = true -> found <> [] ->
             fst r = {| Routes.statusCode := 200;
                        Routes.body :=
                          Routes.PaymentInitiated (List.length found)
                            (Ledger.sum_calculatedAmount found) "IDR" |}).
Proof.
  intros env user req s transactionIds Huniq Hids r.
  split; [|split].
  - intro Hcast. subst r.
    unfold Routes.post_process_payment, Routes.find_pending.
    now rewrite Hids, Hcast.
  - intros n t Hn Hst.
    destruct (post_process_payment_ledger env user req s)
      as [Hs | (tids & ids & _ & _ & Hall & _)].
    + fold r in Hs. now rewrite Hs.
    + fold r in Hall.
      destruct (Forall2_nth_error _ _ _ Hall n t Hn) as (t' & Hn' & Ht').
      destruct Ht' as [->|(Hin & _)]; [exact Hn'|].
      exfalso. apply Hst.
      eapply found_id_pending; eauto using nth_error_In.
  - intros ids Hcast found. split; [|split; [|split]].
    + intro t. apply pending_among_In.
    + apply pending_among_length, Huniq.
    + intros processedCount totalAmount currency. subst r.
      unfold Routes.post_process_payment, Routes.find_pending.
      rewrite Hids, Hcast. fold found.
      destruct (Nat.eqb _ 0); [discriminate|].
      rewrite payment_loop_spec.
      destruct (Routes.updateOk env); [|discriminate].
      destruct (Mongo.bulkWrite _ _ _); [|discriminate].
      cbn. intros [= <- <- _]. auto.
    + intros Hok Hfound. subst r.
      unfold Routes.post_process_payment, Routes.find_pending.
      rewrite Hids, Hcast. fold found.
      destruct found as [|f found']; [contradiction|].
      cbn [List.length Nat.eqb].
      rewrite payment_loop_spec, Hok.
      destruct (bulkWrite_initiate_total env (User._id user)
                  match Routes.PaymentBody.paymentMethod req with
                  | Some m => m
                  | None => "bank_transfer"
                  end (f :: found') (Routes.royaltyTransactions s))
        as [written ->].
      reflexivity.
Qed.
(** ** The ledger under interleaved runs *)

Lemma Forall2_map_eq {A B} (f : A -> B) (l l' : list A) :
  Forall2 (fun x y => f y = f x) l l' -> map f l' = map f l.
Proof. induction 1; cbn; congruence. Qed.

Lemma Forall2_impl {A} (R R' : A -> A -> Prop) (l l' : list A) :
  (forall x y, In x l -> R x y -> R' x y) ->
  Forall2 R l l' -> Forall2 R' l l'.
Proof.
  intros HR H. induction H as [|x y l l' Hxy _ IH]; constructor.
  - apply HR; [now left|exact Hxy].
  - apply IH. intros a b Ha. apply HR. now right.
Qed.

Lemma Forall2_Forall {A} (R : A -> A -> Prop) (P : A -> Prop) l l' :
  (forall x y, In x l -> P x -> R x y -> P y) ->
  Forall2 R l l' -> Forall P l -> Forall P l'.
Proof.
  intros HR H. induction H as [|x y l l' Hxy _ IH]; intro HP.
  - constructor.
  - inversion HP as [|? ? Hx Hl]; subst. constructor.
    + eapply HR; eauto. now left.
    + apply IH; [|exact Hl]. intros a b Ha. apply HR. now right.
Qed.

Lemma NoDup_snoc {A} (l : list A) (x : A) :
  NoDup l -> ~ In x l -> NoDup (l ++ [x]).
Proof.
  induction 1 as [|a l Ha _ IH]; cbn; intro Hx.
  - constructor; [tauto|constructor].
  - constructor.
    + rewrite in_app_iff. cbn. intuition.
    + apply IH. tauto.
Qed.

(** A schedule that can happen is a run of the step relation. *)
Lemma schedule_steps actions :
  forall sv sv',
    Routes.schedule actions sv = Some sv' ->
    clos_refl_trans_n1 Routes.Server Routes.step sv sv'.
Proof.
  intros sv sv' H. apply clos_rt_rtn1, clos_rt1n_rt.
  revert sv H. induction actions as [|a actions IH]; cbn; intros sv H.
  - injection H as <-. constructor.
  - destruct (Routes.perform a sv) as [sv1|] eqn:Ha; [|discriminate].
    econstructor; [exists a; exact Ha|]. apply IH, H.
Qed.

Lemma touched_refl (t : RT.Doc) : Ledger.touched t t.
Proof. right. now left. Qed.

Lemma touched_same_record t t' :
  Ledger.touched t t' -> Ledger.same_record t t'.
Proof.
  intros [[ids [->|(_ & H & _)]]|[->|(H & _)]];
    solve [apply same_record_refl | exact H].
Qed.

(** One write of an initiation update, and one of the completion
    update. *)
Lemma updateOne_initiate env user paymentMethod transaction collection
      written :
  Mongo.updateOne (Routes.now env) (RT._id transaction)
    (Routes.initiate_update env user paymentMethod transaction) collection
  = Some written ->
  Forall2 Ledger.touched collection written.
Proof.
  apply updateOne_Forall2; [apply touched_refl|].
  intros t t' Hid Ht. rewrite applyUpdate_initiate in Ht.
  injection Ht as <-. left. exists [RT._id t]. right.
  split; [now left|]. split; [|split; reflexivity].
  unfold Ledger.same_record. cbn. auto 10.
Qed.

Lemma updateOne_completion env user id collection written :
  Mongo.updateOne (Routes.now env) id (Routes.completion_update env user)
    collection
  = Some written ->
  Forall2 Ledger.touched collection written.
Proof.
  apply updateOne_Forall2; [apply touched_refl|].
  intros t t' Hid Ht. rewrite applyUpdate_completion in Ht.
  injection Ht as <-. right. right. split; [|split; reflexivity].
  unfold Ledger.same_record. cbn. auto 10.
Qed.

(** What one action does to the ledger: the stored transactions stay in
    place, each as it was or as one write of the payment route or of a
    callback leaves it, and at most one transaction, new and pending,
    is added at the end. *)
Lemma perform_ledger a sv sv' :
  Routes.perform a sv = Some sv' ->
  exists kept added,
    Ledger.held sv' = kept ++ added
    /\ Forall2 Ledger.touched (Ledger.held sv) kept
    /\ Forall (Ledger.opened (Ledger.held sv)) added
    /\ (List.length added <= 1)%nat.
Proof.
  assert (Hsame : forall sv0 : Routes.Server,
             Ledger.held sv0 = Ledger.held sv ->
             exists kept added,
               Ledger.held sv0 = kept ++ added
               /\ Forall2 Ledger.touched (Ledger.held sv) kept
               /\ Forall (Ledger.opened (Ledger.held sv)) added
               /\ (List.length added <= 1)%nat).
  { intros sv0 H0. exists (Ledger.held sv), []. rewrite app_nil_r.
    split; [exact H0|]. split; [apply Forall2_refl, touched_refl|].
    split; [constructor|cbn; lia]. }
  assert (Hwritten : forall (sv0 : Routes.Server) written,
             Ledger.held sv0 = written ->
             Forall2 Ledger.touched (Ledger.held sv) written ->
             exists kept added,
               Ledger.held sv0 = kept ++ added
               /\ Forall2 Ledger.touched (Ledger.held sv) kept
               /\ Forall (Ledger.opened (Ledger.held sv)) added
               /\ (List.length added <= 1)%nat).
  { intros sv0 written H0 Hall. exists written, []. rewrite app_nil_r.
    split; [exact H0|]. split; [exact Hall|].
    split; [constructor|cbn; lia]. }
  unfold Routes.perform.
  destruct a as [env user req|n|n|env user req|n|n|env n|n k|n|catalog].
  - destruct (Routes.play_lookup user req (Routes.state sv));
      intros [= <-]; apply Hsame; reflexivity.
  - destruct (nth_error (Routes.running sv) n) as [[env user req musicId music artist| | |]|];
      try discriminate.
    destruct (Routes.save _ _ _) as [saved|] eqn:Hsave;
      intros [= <-]; [|apply Hsame; reflexivity].
    apply save_inv in Hsave. destruct Hsave as (_ & _ & Hfresh & ->).
    eexists _, [_]. split; [reflexivity|].
    split; [apply Forall2_refl, touched_refl|]. split; [|cbn; lia].
    constructor; [|constructor].
    split; [reflexivity|]. split; [reflexivity|].
    intro Hold. apply in_map_iff in Hold. destruct Hold as (t & Hid & Ht).
    apply not_true_iff_false in Hfresh. apply Hfresh.
    apply existsb_exists. exists t. split; [exact Ht|].
    apply String.eqb_eq. exact Hid.
  - destruct (nth_error (Routes.running sv) n) as [[|env musicId| |]|];
      try discriminate.
    destruct (Routes.findByIdAndUpdate _ _ _);
      intros [= <-]; apply Hsame; reflexivity.
  - destruct (Routes.PaymentBody.transactionIds req) as [transactionIds|];
      [|intros [= <-]; apply Hsame; reflexivity].
    destruct (Routes.find_pending _ _) as [[|transaction transactions]|];
      try (intros [= <-]; apply Hsame; reflexivity).
    destruct (Routes.updateOk env);
      intros [= <-]; apply Hsame; reflexivity.
  - destruct (nth_error (Routes.running sv) n)
      as [[| |env user paymentMethod transactionIds [|transaction todo]|]|];
      try discriminate.
    destruct (Mongo.updateOne _ _ _ _) as [written|] eqn:Hone;
      intros [= <-]; [|apply Hsame; reflexivity].
    eapply Hwritten; [reflexivity|]. eapply updateOne_initiate, Hone.
  - destruct (nth_error (Routes.running sv) n)
      as [[| |env user paymentMethod transactionIds [|transaction todo]|]|];
      try discriminate.
    intros [= <-]. apply Hsame. reflexivity.
  - destruct (nth_error (Routes.timers (Routes.state sv)) n) as [timer|];
      [|discriminate].
    destruct (if Routes.updateOk env then _ else _);
      intros [= <-]; apply Hsame; reflexivity.
  - destruct (nth_error (Routes.running sv) n)
      as [[| | |env timer [|id0 todo]]|]; try discriminate.
    + intros [= <-]. apply Hsame. reflexivity.
    + destruct (nth_error (id0 :: todo) k) as [id|]; [|discriminate].
      destruct (Mongo.updateOne _ _ _ _) as [written|] eqn:Hone;
        intros [= <-]; [|apply Hsame; reflexivity].
      eapply Hwritten; [reflexivity|]. eapply updateOne_completion, Hone.
  - destruct (nth_error (Routes.running sv) n); [|discriminate].
    intros [= <-]. apply Hsame. reflexivity.
  - intros [= <-]. apply Hsame. reflexivity.
Qed.

Lemma touched_staged t t' :
  Ledger.staged t -> Ledger.touched t t' -> Ledger.staged t'.
Proof.
  intros Hst [[ids [->|(_ & _ & Hlmk & Hp)]]|[->|(_ & Hrep & Hp)]];
    try exact Hst.
  - unfold Ledger.staged, Ledger.unsettled. rewrite Hlmk, Hp.
    destruct Hst as [[Hrep _]|[Hrep _]]; [left|right]; cbn; auto.
  - right. rewrite Hrep, Hp. cbn. auto.
Qed.

(** The [_id] index holds across an action. *)
Lemma perform_unique a sv sv' :
  Routes.perform a sv = Some sv' ->
  Ledger.unique_ids (Ledger.held sv) ->
  Ledger.unique_ids (Ledger.held sv').
Proof.
  intros Ha Huniq.
  destruct (perform_ledger a sv sv' Ha)
    as (kept & added & Heq & Hkept & Hadded & Hlen).
  rewrite Heq.
  assert (Hids : map RT._id kept = map RT._id (Ledger.held sv)).
  { apply Forall2_map_eq. eapply Forall2_impl; [|exact Hkept].
    intros t t' _ Ht. apply touched_same_record in Ht. apply Ht. }
  unfold Ledger.unique_ids in *.
  destruct added as [|t [|u added]]; [| |cbn in Hlen; lia].
  - rewrite app_nil_r. now rewrite Hids.
  - inversion Hadded as [|? ? (_ & _ & Hfresh) _]; subst.
    rewrite map_app. cbn [map].
    apply NoDup_snoc; rewrite Hids; assumption.
Qed.

Lemma perform_staged a sv sv' :
  Routes.perform a sv = Some sv' ->
  Forall Ledger.staged (Ledger.held sv) ->
  Forall Ledger.staged (Ledger.held sv').
Proof.
  intros Ha Hall.
  destruct (perform_ledger a sv sv' Ha)
    as (kept & added & Heq & Hkept & Hadded & _).
  rewrite Heq. apply Forall_app. split.
  - eapply Forall2_Forall; [|exact Hkept|exact Hall].
    intros t t' _. apply touched_staged.
  - eapply Forall_impl; [|exact Hadded].
    intros t (Hrep & Hp & _). left. split; [exact Hrep|].
    unfold Ledger.unsettled. rewrite Hp. now left.
Qed.

Lemma perform_consistent a sv sv' :
  Routes.perform a sv = Some sv' ->
  Ledger.consistent (Routes.state sv) ->
  Ledger.consistent (Routes.state sv').
Proof.
  intros Ha [Huniq Hall]. split.
  - exact (perform_unique a sv sv' Ha Huniq).
  - exact (perform_staged a sv sv' Ha Hall).
Qed.

(** Every state the interleaved runs reach has its ledger under the
    [_id] index and each transaction at one of the stages the writes
    leave. *)
Lemma reachable_consistent sv :
  Routes.reachable sv -> Ledger.consistent (Routes.state sv).
Proof.
  induction 1 as [|sv sv' [a Ha] _ IH].
  - split; [constructor|constructor].
  - eapply perform_consistent; eauto.
Qed.

(** C10.  In every state the routes reach, their runs interleaved in
    any way, the query for the pending LMK reports finds nothing: the
    one update that completes a payment sets the report to reported
    with it. *)
Theorem pending_reports_empty :
  forall sv,
    Routes.reachable sv ->
    RT.getPendingLMKReports (Routes.royaltyTransactions (Routes.state sv))
    = [].
Proof.
  intros sv Hreach.
  destruct (reachable_consistent sv Hreach) as [_ Hall].
  unfold RT.getPendingLMKReports.
  induction Hall as [|t l Ht _ IH]; [reflexivity|].
  cbn [filter]. rewrite IH.
  destruct Ht as [[_ Hunsettled]|[Hrep _]].
  - unfold Ledger.unsettled in Hunsettled.
    destruct Hunsettled as [<-|[<-|[]]];
      now rewrite andb_false_r.
  - now rewrite Hrep.
Qed.

(** ** The sample run *)

Lemma sample_reachable :
  Routes.reachable (Runs.server Sample.completed_again).
Proof.
  apply (schedule_steps Runs.alone). vm_compute. reflexivity.
Defined.

Lemma pending_reports_empty_witness :
  RT.getPendingLMKReports
    (Routes.royaltyTransactions
       (Routes.state (Runs.server Sample.completed_again)))
  = [].
Proof.
  exact (pending_reports_empty (Runs.server Sample.completed_again)
           sample_reachable).
Defined.

(** ** Requests that overlap *)

Lemma overlap_reachable : Routes.reachable Overlap.overwritten.
Proof.
  apply (schedule_steps Overlap.actions). vm_compute. reflexivity.
Defined.

(** C1.  The report gets ahead of the payment when two payment
    requests overlap.  Both requests of the overlap list the one
    transaction of the ledger and both queries find it pending.  The
    first request writes, and its callback completes the payment and
    makes the report; then the write of the second request lands: its
    filter names the [_id] alone, where the query had the pending
    status beside it, and it sets the payment back to processing.  The
    state is one the routes reach, and in it the transaction is
    reported while its payment is processing. *)
Theorem overlapping_requests_report_ahead :
  Routes.schedule Overlap.actions Routes.initial = Some Overlap.overwritten
  /\ Routes.reachable Overlap.overwritten
  /\ Ledger.held Overlap.settled = [Overlap.completed]
  /\ RT.status (RT.paymentInfo Overlap.completed) = "completed"
  /\ RT.reportingStatus (RT.lmkCompliance Overlap.completed) = "reported"
  /\ Routes.perform (Routes.InitiationLands 0) Overlap.settled
     = Some Overlap.overwritten
  /\ Ledger.held Overlap.overwritten = [Overlap.late]
  /\ RT.status (RT.paymentInfo Overlap.late) = "processing"
  /\ RT.reportingStatus (RT.lmkCompliance Overlap.late) = "reported"
  /\ Ledger.reported Overlap.late /\ Ledger.unsettled Overlap.late.
Proof.
  split; [vm_compute; reflexivity|].
  split; [exact overlap_reachable|].
  do 7 (split; [vm_compute; reflexivity|]).
  split; vm_compute; tauto.
Qed.

(** C3.  A payment request changes a transaction that is not pending,
    and counts it, when its run overlaps another.  In the overlap both
    requests list the one transaction of the ledger; both queries find
    it pending, so each request answers with a count of 1 and its
    amount, 5000.  The first request and its callback leave the payment
    completed, paid at 2000; the [updateOne] of the second request,
    whose filter is the [_id] without the status, then lands on the
    completed transaction: the payment is processing again, paid at
    2500. *)
Theorem overlapping_request_rewrites_completed :
  Ledger.held Overlap.queried = Routes.royaltyTransactions Sample.played
  /\ map (fun run =>
            match run with
            | Routes.Initiating env _ _ _ todo =>
                (Routes.now env, map RT._id todo)
            | _ => (0%Z, [])
            end)
         (Routes.running Overlap.queried)
     = [(2000%Z, [Sample.tx1]); (2500%Z, [Sample.tx1])]
  /\ fst (Routes.post_process_payment (Sample.env 2500 Sample.unknown_id)
            Sample.admin (Sample.pay [Sample.tx1])
            (Routes.state Overlap.queried))
     = {| Routes.statusCode := 200;
          Routes.body := Routes.PaymentInitiated 1 5000%float "IDR" |}
  /\ Ledger.held Overlap.settled = [Overlap.completed]
  /\ RT.status (RT.paymentInfo Overlap.completed) = "completed"
  /\ RT.paymentDate (RT.paymentInfo Overlap.completed) = Some 2000%Z
  /\ Routes.perform (Routes.InitiationLands 0) Overlap.settled
     = Some Overlap.overwritten
  /\ Ledger.held Overlap.overwritten = [Overlap.late]
  /\ RT.status (RT.paymentInfo Overlap.late) = "processing"
  /\ RT.paymentDate (RT.paymentInfo Overlap.late) = Some 2500%Z.
Proof.
  do 9 (split; [vm_compute; reflexivity|]). vm_compute. reflexivity.
Qed.

(** ** Where the callback departs from the lifecycle of a payment *)

(** The [updateMany] of the callback raises no CastError: it maps the
    listed documents to their completed form. *)
Lemma updateMany_completion env user ids collection :
  Mongo.updateMany (Routes.now env) ids (Routes.completion_update env user)
    collection
  = Some (map (fun t => if Js.includes ids (RT._id t)
                        then Ledger.completed_by env user t
                        else t)
              collection).
Proof.
  induction collection as [|t collection IH]; [reflexivity|].
  cbn [Mongo.updateMany map]. rewrite IH.
  destruct (Js.includes ids (RT._id t));
    [rewrite applyUpdate_completion|]; reflexivity.
Qed.

(** The completion update reaches every listed transaction, whatever
    its payment status: it leaves it completed and reported at the
    time of the callback, with one more audit entry. *)
Lemma payment_completion_any_status env timer ids s n t :
  Routes.updateOk env = true ->
  Js.castObjectIds (Routes.timer_transactionIds timer) = Some ids ->
  nth_error (Routes.royaltyTransactions s) n = Some t ->
  In (RT._id t) ids ->
  nth_error (Routes.royaltyTransactions
               (Routes.payment_completion env timer s)) n
  = Some (Ledger.completed_by env (Routes.timer_user timer) t).
Proof.
  intros Hok Hcast Hn Hin. unfold Routes.payment_completion.
  rewrite Hok, Hcast, updateMany_completion.
  cbn [Routes.royaltyTransactions].
  rewrite nth_error_map, Hn. cbn [option_map].
  assert (Hinc : Js.includes ids (RT._id t) = true).
  { apply existsb_exists. exists (RT._id t).
    split; [exact Hin|apply String.eqb_refl]. }
  now rewrite Hinc.
Qed.

(** C2.  The completion callback is not conditioned on the payment
    status.  The second request of the sample run lists the settled
    transaction beside a pending one; only the pending one is
    processed, yet when the callback fires the settled transaction,
    completed and not processing, is written again: its report date
    moves from 7000 to 14000 and its audit trail gets a second
    payment_completed entry. *)
Theorem completion_reaches_settled :
  Routes.fire_timer (Sample.env 14000 Sample.unknown_id) 0 Sample.initiated_again
  = Some Sample.completed_again
  /\ nth_error (Routes.royaltyTransactions Sample.initiated_again) 0
     = Some Sample.settled
  /\ nth_error (Routes.royaltyTransactions Sample.completed_again) 0
     = Some Sample.settled_again
  /\ RT.status (RT.paymentInfo Sample.settled) = "completed"
  /\ RT.reportedToLMK (RT.lmkCompliance Sample.settled) = Some 7000%Z
  /\ RT.reportedToLMK (RT.lmkCompliance Sample.settled_again)
     = Some 14000%Z
  /\ map RT.action (RT.auditTrail Sample.settled_again)
     = map RT.action (RT.auditTrail Sample.settled)
       ++ [Some "payment_completed"]
  /\ Sample.settled_again <> Sample.settled.
Proof.
  do 7 (split; [vm_compute; reflexivity|]).
  intro H.
  apply (f_equal (fun t => RT.reportedToLMK (RT.lmkCompliance t))) in H.
  vm_compute in H. discriminate.
Qed.

(** C7.  The audit trail through a payment.  The transaction of the
    sample run starts with an empty trail; after the payment request
    and its callback the trail has two entries, but the first carries
    no action: the update of the request names [$push] under the path
    of the trail, where the update of the callback names the path
    under [$push], and so the trail is set, not appended to.  On any
    stored transaction that update leaves a trail of one entry without
    action, whatever the trail held before. *)
Theorem audit_trail_after_payment :
  RT.auditTrail Sample.recorded = []
  /\ map (fun e => (RT.action e, RT.timestamp e)) (RT.auditTrail Sample.settled)
     = [(None, 2000%Z); (Some "payment_completed", 7000%Z)]
  /\ (forall env user paymentMethod transaction t,
         exists t',
           Mongo.applyUpdate (Routes.now env)
             (Routes.initiate_update env user paymentMethod transaction) t
           = Some t'
           /\ RT.auditTrail t'
              = [ {| RT.action := None; RT.performedBy := None;
                     RT.timestamp := Routes.now env;
                     RT.details := None |} ]).
Proof.
  split; [reflexivity|]. split; [vm_compute; reflexivity|].
  intros env user paymentMethod transaction t.
  rewrite applyUpdate_initiate. eexists. split; reflexivity.
Qed.

(** * Further properties of the routes *)

(** ** The ledger along a run *)

Lemma Forall2_app_left {A} (R : A -> A -> Prop) l1 l2 :
  Forall2 R l1 l2 ->
  forall l3 extra, Forall2 R (l2 ++ extra) l3 ->
    exists kept added, l3 = kept ++ added /\ Forall2 R l2 kept.
Proof.
  induction 1 as [|a b l1 l2 _ _ IH]; intros l3 extra H23.
  - exists [], l3. split; [reflexivity|constructor].
  - inversion H23 as [|? c ? l3' Hbc Hrest]; subst.
    destruct (IH l3' extra Hrest) as (kept & added & -> & Hkept).
    exists (c :: kept), added. split; [reflexivity|].
    constructor; assumption.
Qed.

(** One step keeps every transaction in its place, the record fields as
    they are, and adds at most one transaction at the end. *)
Lemma step_keeps_records sv sv' :
  Routes.step sv sv' ->
  exists kept added,
    Ledger.held sv' = kept ++ added
    /\ Forall2 Ledger.same_record (Ledger.held sv) kept.
Proof.
  intros [a Ha].
  destruct (perform_ledger a sv sv' Ha) as (kept & added & Heq & Hkept & _).
  exists kept, added. split; [exact Heq|].
  eapply Forall2_impl; [|exact Hkept].
  intros t t' _. apply touched_same_record.
Qed.

(** X1.  Along any run of the routes, their handlers and callbacks
    interleaved in any way and from any state, the ledger only grows at
    its end, no transaction is removed or moved, and the fields written
    at creation (the ids of the transaction, work, business and artist,
    the play and the royalty information) stay what they were. *)
Theorem ledger_append_only :
  forall sv sv',
    clos_refl_trans_n1 Routes.Server Routes.step sv sv' ->
    exists kept added,
      Routes.royaltyTransactions (Routes.state sv') = kept ++ added
      /\ Forall2 Ledger.same_record
                 (Routes.royaltyTransactions (Routes.state sv)) kept.
Proof.
  intros sv sv' Hrun. induction Hrun as [|sv1 sv2 Hstep _ IH].
  - exists (Routes.royaltyTransactions (Routes.state sv)), [].
    rewrite app_nil_r.
    split; [reflexivity|]. apply Forall2_refl, same_record_refl.
  - destruct IH as (kept1 & added1 & Heq1 & Hkept1).
    destruct (step_keeps_records sv1 sv2 Hstep)
      as (kept2 & added2 & Heq2 & Hkept2).
    unfold Ledger.held in Heq2, Hkept2. rewrite Heq1 in Hkept2.
    destruct (Forall2_app_left _ _ _ Hkept1 kept2 added1 Hkept2)
      as (kept & added & -> & Hkept).
    exists kept, (added ++ added2). rewrite Heq2, app_assoc.
    split; [reflexivity|].
    eapply Forall2_compose; [|exact Hkept1|exact Hkept].
    apply same_record_trans.
Qed.

Lemma sample_run_from_played :
  clos_refl_trans_n1 Routes.Server Routes.step
    (Runs.server Sample.played) (Runs.server Sample.completed_again).
Proof.
  apply (schedule_steps Runs.from_played). vm_compute. reflexivity.
Defined.

Lemma ledger_append_only_witness :
  exists kept added,
    Routes.royaltyTransactions
      (Routes.state (Runs.server Sample.completed_again))
    = kept ++ added
    /\ Forall2 Ledger.same_record
               (Routes.royaltyTransactions
                  (Routes.state (Runs.server Sample.played)))
               kept.
Proof.
  exact (ledger_append_only (Runs.server Sample.played)
           (Runs.server Sample.completed_again) sample_run_from_played).
Defined.

Lemma touched_moves t t' : Ledger.touched t t' -> Settlement.moves t t'.
Proof.
  intros [[ids [->|(_ & _ & Hlmk & Hp)]]|[->|(_ & Hrep & Hp)]].
  - split; now left.
  - split; [right; now left|now left].
  - split; now left.
  - split; right; [now right|now split].
Qed.

(** X2.  One step of the routes, whatever runs are under way, moves
    the payment status of a stored transaction only to processing or to
    completed, never back to pending, and its report only to reported,
    with the payment completed in the same step; a report once made
    stays made. *)
Theorem step_moves :
  forall sv sv' n t,
    Routes.step sv sv' ->
    nth_error (Ledger.held sv) n = Some t ->
    exists t',
      nth_error (Ledger.held sv') n = Some t'
      /\ Settlement.moves t t'
      /\ (RT.status (RT.paymentInfo t') = "pending" ->
          RT.status (RT.paymentInfo t) = "pending")
      /\ (RT.reportingStatus (RT.lmkCompliance t) = "reported" ->
          RT.reportingStatus (RT.lmkCompliance t') = "reported").
Proof.
  intros sv sv' n t [a Ha] Hn.
  destruct (perform_ledger a sv sv' Ha) as (kept & added & Heq & Hkept & _).
  destruct (Forall2_nth_error _ _ _ Hkept n t Hn) as (t' & Hn' & Ht').
  exists t'. split.
  { rewrite Heq, nth_error_app1; [exact Hn'|].
    apply nth_error_Some. congruence. }
  apply touched_moves in Ht'. split; [exact Ht'|].
  destruct Ht' as [Hpay Hrep]. split.
  - intro Hp. destruct Hpay as [Hsame|[Hproc|Hdone]]; congruence.
  - intro Hr. destruct Hrep as [Hsame|[Hr' _]]; congruence.
Qed.

(** The late write of the overlap: the payment goes from completed to
    processing. *)
Lemma step_moves_witness :
  exists t',
    nth_error (Ledger.held Overlap.overwritten) 0 = Some t'
    /\ Settlement.moves Overlap.completed t'.
Proof.
  destruct (step_moves Overlap.settled Overlap.overwritten 0
              Overlap.completed)
    as (t' & Hn & Hm & _).
  - exists (Routes.InitiationLands 0). vm_compute. reflexivity.
  - vm_compute. reflexivity.
  - exists t'. split; assumption.
Defined.

(** X3.  No state the routes reach, their runs interleaved in any way,
    holds a transaction whose payment is failed, disputed or refunded,
    or whose report is confirmed or disputed: the payment is pending,
    processing or completed and the report pending or reported; a
    completed payment has its report made, and a pending payment has
    its report pending. *)
Theorem reachable_statuses :
  forall sv t,
    Routes.reachable sv ->
    In t (Ledger.held sv) ->
    In (RT.status (RT.paymentInfo t)) ["pending"; "processing"; "completed"]
    /\ In (RT.reportingStatus (RT.lmkCompliance t)) ["pending"; "reported"]
    /\ (RT.status (RT.paymentInfo t) = "completed" ->
        RT.reportingStatus (RT.lmkCompliance t) = "reported")
    /\ (RT.status (RT.paymentInfo t) = "pending" ->
        RT.reportingStatus (RT.lmkCompliance t) = "pending").
Proof.
  intros sv t Hreach Ht.
  destruct (reachable_consistent sv Hreach) as [_ Hall].
  rewrite Forall_forall in Hall.
  destruct (Hall t Ht) as [[Hrep Hunsettled]|[Hrep Hlate]].
  - unfold Ledger.unsettled in Hunsettled. rewrite Hrep.
    split; [cbn in *; tauto|]. split; [now left|].
    split; intro H; [|reflexivity].
    rewrite H in Hunsettled. cbn in Hunsettled. intuition discriminate.
  - rewrite Hrep. split; [cbn in *; tauto|]. split; [cbn; tauto|].
    split; intro H; [reflexivity|].
    rewrite H in Hlate. cbn in Hlate. intuition discriminate.
Qed.

(** In the overlap the transaction ends reported with its payment
    processing. *)
Lemma reachable_statuses_witness :
  In (RT.status (RT.paymentInfo Overlap.late))
     ["pending"; "processing"; "completed"]
  /\ In (RT.reportingStatus (RT.lmkCompliance Overlap.late))
        ["pending"; "reported"].
Proof.
  destruct (reachable_statuses Overlap.overwritten Overlap.late
              overlap_reachable)
    as (Hp & Hr & _).
  - vm_compute. left. reflexivity.
  - split; assumption.
Defined.


(** ** A payment request and its callback *)

(** Under the [_id] index, [updateOne] with an update that always
    applies maps the document of that [_id] and leaves the others. *)
Lemma updateOne_map now id u (f : RT.Doc -> RT.Doc) :
  (forall t, Mongo.applyUpdate now u t = Some (f t)) ->
  forall collection,
    Ledger.unique_ids collection ->
    Mongo.updateOne now id u collection
    = Some (map (fun t => if String.eqb (RT._id t) id then f t else t)
                collection).
Proof.
  intro Hf. unfold Ledger.unique_ids.
  induction collection as [|t collection IH]; cbn; intro Huniq;
    [reflexivity|].
  inversion Huniq as [|? ? Hnotin Huniq']; subst.
  destruct (String.eqb_spec (RT._id t) id) as [Hid|Hid].
  - rewrite Hf. do 2 f_equal.
    rewrite <- (map_id collection) at 1. apply map_ext_in.
    intros a Ha. destruct (String.eqb_spec (RT._id a) id) as [Ha'|]; [|easy].
    exfalso. apply Hnotin. rewrite Hid, <- Ha'. now apply in_map.
  - rewrite (IH Huniq'). reflexivity.
Qed.

(** The [bulkWrite] of a payment request, under the [_id] index: the
    documents with the [_id] of a found transaction are mapped to their
    initiated form, the others are left. *)
Lemma bulkWrite_initiate_map env user paymentMethod transactions :
  forall collection,
    Ledger.unique_ids collection ->
    Mongo.bulkWrite (Routes.now env)
      (map (Ledger.initiate_op env user paymentMethod) transactions)
      collection
    = Some (map (fun t =>
                   if Js.includes (map RT._id transactions) (RT._id t)
                   then Settlement.initiated_by env paymentMethod t
                   else t)
                collection).
Proof.
  induction transactions as [|f transactions IH]; intros collection Huniq.
  - cbn. now rewrite map_id.
  - cbn [map Mongo.bulkWrite Ledger.initiate_op Mongo.filter_id Mongo.update].
    rewrite (updateOne_map _ _ _
               (fun t => RT.with_auditTrail [Settlement.blank_entry env]
                  (RT.with_paymentInfo
                     {| RT.status := "processing";
                        RT.paymentDate := Some (Routes.now env);
                        RT.paymentMethod := paymentMethod;
                        RT.transactionId :=
                          Some (Settlement.external_id env (RT._id f)) |}
                     t)));
      [|intro t; apply applyUpdate_initiate|exact Huniq].
    rewrite IH.
    + rewrite map_map. f_equal. apply map_ext. intro t.
      unfold Js.includes. cbn [existsb].
      destruct (String.eqb_spec (RT._id t) (RT._id f)) as [Hid|Hid].
      * rewrite <- Hid. cbn [orb]. unfold Settlement.initiated_by.
        cbn [RT._id RT.with_auditTrail RT.with_paymentInfo].
        destruct (existsb _ _); reflexivity.
      * reflexivity.
    + unfold Ledger.unique_ids in *. rewrite map_map.
      erewrite map_ext; [exact Huniq|].
      intro t. cbn. destruct (String.eqb _ _); reflexivity.
Qed.

Lemma includes_In ids id : Js.includes ids id = true <-> In id ids.
Proof.
  unfold Js.includes. rewrite existsb_exists. split.
  - intros (x & Hx & Heq). apply String.eqb_eq in Heq. now subst.
  - intro H. exists id. split; [exact H|apply String.eqb_refl].
Qed.

Lemma found_ids ids collection t :
  In t collection ->
  In (RT._id t) ids ->
  RT.status (RT.paymentInfo t) = "pending" ->
  Js.includes (map RT._id (Routes.pending_among ids collection)) (RT._id t)
  = true.
Proof.
  intros Ht Hid Hst. apply includes_In, in_map, pending_among_In. auto.
Qed.

(** A payment request answers 200 only when its query has cast the
    listed values. *)
Lemma post_process_payment_cast env user req s transactionIds :
  Routes.PaymentBody.transactionIds req = Some transactionIds ->
  Routes.statusCode (fst (Routes.post_process_payment env user req s)) = 200 ->
  exists ids, Js.castObjectIds transactionIds = Some ids.
Proof.
  intro Hids. unfold Routes.post_process_payment, Routes.find_pending.
  rewrite Hids.
  destruct (Js.castObjectIds transactionIds) as [ids|]; [eauto|discriminate].
Qed.

(** What a payment request that answers 200 leaves, when nothing
    interrupts its run. *)
Lemma post_process_payment_ok env user req s transactionIds ids :
  Ledger.unique_ids (Routes.royaltyTransactions s) ->
  Routes.PaymentBody.transactionIds req = Some transactionIds ->
  Js.castObjectIds transactionIds = Some ids ->
  Routes.statusCode (fst (Routes.post_process_payment env user req s)) = 200 ->
  snd (Routes.post_process_payment env user req s)
  = {| Routes.royaltyTransactions :=
         map (fun t =>
                if Js.includes
                     (map RT._id
                          (Routes.pending_among ids
                             (Routes.royaltyTransactions s)))
                     (RT._id t)
                then Settlement.initiated_by env (Settlement.method_of req) t
                else t)
             (Routes.royaltyTransactions s);
       Routes.musics := Routes.musics s;
       Routes.timers :=
         Routes.timers s
         ++ [ {| Routes.timer_transactionIds := transactionIds;
                 Routes.timer_user := User._id user |} ] |}.
Proof.
  intros Huniq Hids Hcast.
  unfold Routes.post_process_payment, Routes.find_pending.
  rewrite Hids, Hcast.
  destruct (Nat.eqb _ 0); [discriminate|].
  rewrite payment_loop_spec.
  destruct (Routes.updateOk env); [|discriminate].
  fold (Settlement.method_of req).
  rewrite (bulkWrite_initiate_map env (User._id user)
             (Settlement.method_of req) _ _ Huniq).
  reflexivity.
Qed.

(** Along a schedule a stored transaction keeps its place and its
    [_id], and a payment that has left pending does not return to
    it. *)
Lemma schedule_keeps_initiated actions :
  forall sv sv' n t,
    Routes.schedule actions sv = Some sv' ->
    nth_error (Ledger.held sv) n = Some t ->
    exists t',
      nth_error (Ledger.held sv') n = Some t'
      /\ RT._id t' = RT._id t
      /\ (RT.status (RT.paymentInfo t) <> "pending" ->
          RT.status (RT.paymentInfo t') <> "pending").
Proof.
  induction actions as [|a actions IH]; cbn; intros sv sv' n t H Hn.
  - injection H as <-. exists t. auto.
  - destruct (Routes.perform a sv) as [sv1|] eqn:Ha; [|discriminate].
    destruct (perform_ledger a sv sv1 Ha)
      as (kept & added & Heq & Hkept & _).
    destruct (Forall2_nth_error _ _ _ Hkept n t Hn) as (t1 & Hn1 & Ht1).
    assert (Hn1' : nth_error (Ledger.held sv1) n = Some t1).
    { rewrite Heq, nth_error_app1; [exact Hn1|].
      apply nth_error_Some. congruence. }
    destruct (IH sv1 sv' n t1 H Hn1') as (t' & Hn' & Hid & Hst).
    exists t'. split; [exact Hn'|].
    pose proof (touched_same_record _ _ Ht1) as (Hid1 & _).
    split; [congruence|].
    intro Hp. apply Hst. apply touched_moves in Ht1.
    destruct Ht1 as [[Hsame|[Hproc|Hdone]] _]; congruence.
Qed.

Lemma schedule_unique actions :
  forall sv sv',
    Routes.schedule actions sv = Some sv' ->
    Ledger.unique_ids (Ledger.held sv) ->
    Ledger.unique_ids (Ledger.held sv').
Proof.
  induction actions as [|a actions IH]; cbn; intros sv sv' H Huniq.
  - now injection H as <-.
  - destruct (Routes.perform a sv) as [sv1|] eqn:Ha; [|discriminate].
    eapply IH; [exact H|]. eapply perform_unique; eauto.
Qed.

(** X4.  A payment request that runs alone and answers 200, on a
    ledger under its [_id] index, leaves every pending transaction its
    list names processing, with the payment date, the method and the
    external transaction id of the request, its report untouched.  The
    same request sent again by an admin straight after finds nothing
    pending: it answers 404 and writes nothing.  And whatever requests
    and callbacks run from then on, interleaved in any way, no query of
    the payment route finds such a transaction pending again. *)
Theorem payment_request_effective :
  forall env user req s transactionIds ids,
    Ledger.unique_ids (Routes.royaltyTransactions s) ->
    Routes.PaymentBody.transactionIds req = Some transactionIds ->
    Js.castObjectIds transactionIds = Some ids ->
    let r := Routes.post_process_payment env user req s in
    Routes.statusCode (fst r) = 200 ->
    (forall n t,
        nth_error (Routes.royaltyTransactions s) n = Some t ->
        In (RT._id t) ids ->
        RT.status (RT.paymentInfo t) = "pending" ->
        nth_error (Routes.royaltyTransactions (snd r)) n
        = Some (Settlement.initiated_by env (Settlement.method_of req) t))
    /\ (forall env' account,
           Auth.role account = "admin" ->
           Auth.process_payment env' (Some account) req (snd r)
           = (Auth.Handled
                {| Routes.statusCode := 404;
                   Routes.body :=
                     Routes.Message "No pending transactions found"
                                    "NO_PENDING_TRANSACTIONS" |},
              snd r))
    /\ (forall runs actions sv' n t values found,
           Routes.schedule actions
             {| Routes.state := snd r; Routes.running := runs |}
           = Some sv' ->
           nth_error (Routes.royaltyTransactions s) n = Some t ->
           In (RT._id t) ids ->
           RT.status (RT.paymentInfo t) = "pending" ->
           Routes.find_pending values (Ledger.held sv') = Some found ->
           ~ In (RT._id t) (map RT._id found)).
Proof.
  intros env user req s transactionIds ids Huniq Hids Hcast r Hok. subst r.
  assert (Hwritten :
    forall n t,
      nth_error (Routes.royaltyTransactions s) n = Some t ->
      In (RT._id t) ids ->
      RT.status (RT.paymentInfo t) = "pending" ->
      nth_error (Routes.royaltyTransactions
                   (snd (Routes.post_process_payment env user req s))) n
      = Some (Settlement.initiated_by env (Settlement.method_of req) t)).
  { rewrite (post_process_payment_ok env user req s transactionIds ids
               Huniq Hids Hcast Hok).
    cbn [Routes.royaltyTransactions].
    intros n t Hn Hid Hst. rewrite nth_error_map, Hn. cbn [option_map].
    rewrite (found_ids ids _ t (nth_error_In _ _ Hn) Hid Hst). reflexivity. }
  assert (Huniq' :
    Ledger.unique_ids
      (Routes.royaltyTransactions
         (snd (Routes.post_process_payment env user req s)))).
  { rewrite (post_process_payment_ok env user req s transactionIds ids
               Huniq Hids Hcast Hok).
    cbn [Routes.royaltyTransactions].
    unfold Ledger.unique_ids in *. rewrite map_map.
    erewrite map_ext; [exact Huniq|].
    intro t. cbn. destruct (Js.includes _ _); reflexivity. }
  split; [exact Hwritten|]. split.
  - intros env' account Hrole.
    unfold Auth.process_payment, Auth.requireRole. rewrite Hrole.
    cbn [Js.includes existsb String.eqb Ascii.eqb Bool.eqb orb negb].
    rewrite (post_process_payment_ok env user req s transactionIds ids
               Huniq Hids Hcast Hok).
    unfold Routes.post_process_payment, Routes.find_pending.
    rewrite Hids, Hcast. cbn [Routes.royaltyTransactions].
    replace (Routes.pending_among ids _) with (@nil RT.Doc);
      [reflexivity|].
    symmetry. unfold Routes.pending_among at 1.
    rewrite <- (filter_ext_in (fun _ => false)).
    + induction (map _ _); [reflexivity|assumption].
    + intros t' Ht'. apply in_map_iff in Ht'.
      destruct Ht' as (t & <- & Ht). symmetry.
      destruct (Js.includes (map RT._id _) (RT._id t)) eqn:Hfound.
      * cbn. apply andb_false_r.
      * apply andb_false_iff.
        destruct (Js.includes ids (RT._id t)) eqn:Hlisted; [right|now left].
        destruct (String.eqb_spec (RT.status (RT.paymentInfo t)) "pending")
          as [Hst|]; [|reflexivity].
        rewrite found_ids in Hfound; [discriminate|exact Ht| |exact Hst].
        now apply includes_In.
  - intros runs actions sv' n t values found Hrun Hn Hid Hst Hfind Hin.
    destruct (schedule_keeps_initiated actions _ sv' n _ Hrun
                (Hwritten n t Hn Hid Hst))
      as (t' & Hn' & Hid' & Hst').
    pose proof (schedule_unique actions _ sv' Hrun Huniq') as Huniq''.
    unfold Routes.find_pending in Hfind.
    destruct (Js.castObjectIds values) as [ids'|]; [|discriminate].
    injection Hfind as <-.
    apply in_map_iff in Hin. destruct Hin as (f & Hf & Hin).
    apply pending_among_In in Hin. destruct Hin as (Hin & _ & Hpending).
    assert (Heq : f = t').
    { apply (unique_ids_eq (Ledger.held sv') f t' Huniq'' Hin
               (nth_error_In _ _ Hn')).
      rewrite Hid', Hf. reflexivity. }
    subst f. apply Hst'; [discriminate|exact Hpending].
Qed.


Lemma sample_played_unique :
  Ledger.unique_ids (Routes.royaltyTransactions Sample.played).
Proof.
  unfold Ledger.unique_ids. vm_compute. repeat constructor. cbn. tauto.
Defined.

Lemma payment_request_effective_witness :
  Auth.process_payment (Sample.env 3000 Sample.unknown_id)
    (Some Accounts.admin) (Sample.pay [Sample.tx1]) Sample.initiated
  = (Auth.Handled
       {| Routes.statusCode := 404;
          Routes.body := Routes.Message "No pending transactions found"
                           "NO_PENDING_TRANSACTIONS" |},
     Sample.initiated).
Proof.
  refine (proj1 (proj2 (payment_request_effective
                          (Sample.env 2000 Sample.unknown_id) Sample.admin
                          (Sample.pay [Sample.tx1]) Sample.played
                          [Sample.tx1] [Sample.tx1]
                          sample_played_unique eq_refl eq_refl _))
                (Sample.env 3000 Sample.unknown_id) Accounts.admin eq_refl).
  vm_compute. reflexivity.
Defined.

Lemma nth_error_last {A} (l : list A) (x : A) :
  nth_error (l ++ [x]) (List.length l) = Some x.
Proof. induction l; cbn; auto. Qed.

Lemma remove_nth_last {A} (l : list A) (x : A) :
  Routes.remove_nth (List.length l) (l ++ [x]) = l.
Proof. induction l; cbn; congruence. Qed.

(** X5.  A payment request that answers 200 followed by its callback,
    when the database takes the callback's write: the callback is
    spent, and every transaction the request found pending ends with
    its payment completed and its report made at the time of the
    callback, the payment date being that of the request; its audit
    trail is the entry without action left by the request followed by
    the payment_completed entry. *)
Theorem payment_settles :
  forall env env' user req s transactionIds ids,
    Ledger.unique_ids (Routes.royaltyTransactions s) ->
    Routes.PaymentBody.transactionIds req = Some transactionIds ->
    Js.castObjectIds transactionIds = Some ids ->
    let r := Routes.post_process_payment env user req s in
    Routes.statusCode (fst r) = 200 ->
    Routes.updateOk env' = true ->
    exists s',
      Routes.fire_timer env' (List.length (Routes.timers s)) (snd r) = Some s'
      /\ Routes.timers s' = Routes.timers s
      /\ Routes.musics s' = Routes.musics s
      /\ forall n t,
           nth_error (Routes.royaltyTransactions s) n = Some t ->
           In (RT._id t) ids ->
           RT.status (RT.paymentInfo t) = "pending" ->
           exists t',
             nth_error (Routes.royaltyTransactions s') n = Some t'
             /\ t' = Ledger.completed_by env' (User._id user)
                       (Settlement.initiated_by env
                          (Settlement.method_of req) t)
             /\ RT.status (RT.paymentInfo t') = "completed"
             /\ RT.paymentDate (RT.paymentInfo t') = Some (Routes.now env)
             /\ RT.lmkCompliance t'
                = {| RT.reportingStatus := "reported";
                     RT.reportedToLMK := Some (Routes.now env') |}
             /\ map (fun e => (RT.action e, RT.timestamp e)) (RT.auditTrail t')
                = [(None, Routes.now env);
                   (Some "payment_completed", Routes.now env')].
Proof.
  intros env env' user req s transactionIds ids Huniq Hids Hcast r Hok Hwrite.
  subst r.
  rewrite (post_process_payment_ok env user req s transactionIds ids
             Huniq Hids Hcast Hok).
  unfold Routes.fire_timer. cbn [Routes.timers].
  rewrite nth_error_last, remove_nth_last. eexists. split; [reflexivity|].
  unfold Routes.payment_completion.
  cbn [Routes.timer_transactionIds Routes.timer_user].
  rewrite Hwrite, Hcast, updateMany_completion.
  cbn [Routes.royaltyTransactions Routes.musics Routes.timers
       Routes.timer_transactionIds Routes.timer_user].
  split; [reflexivity|]. split; [reflexivity|].
  intros n t Hn Hid Hst. eexists. rewrite !nth_error_map, Hn.
  cbn [option_map].
  rewrite (found_ids ids _ t (nth_error_In _ _ Hn) Hid Hst).
  cbn [Settlement.initiated_by RT._id RT.with_auditTrail RT.with_paymentInfo].
  rewrite (proj2 (includes_In ids (RT._id t)) Hid).
  repeat split.
Qed.

Lemma payment_settles_witness :
  exists s',
    Routes.fire_timer (Sample.env 7000 Sample.unknown_id) 0 Sample.initiated
    = Some s'
    /\ Routes.timers s' = [].
Proof.
  destruct (payment_settles (Sample.env 2000 Sample.unknown_id)
              (Sample.env 7000 Sample.unknown_id) Sample.admin
              (Sample.pay [Sample.tx1]) Sample.played [Sample.tx1]
              [Sample.tx1] sample_played_unique eq_refl eq_refl)
    as (s' & Hfire & Htimers & _).
  - vm_compute. reflexivity.
  - reflexivity.
  - exists s'. split; [exact Hfire|exact Htimers].
Defined.
(** ** A handler running alone is a schedule

    The handlers as functions and the actions of the server describe
    the same code: the state a handler leaves when nothing interrupts
    it is the state its actions leave, taken one after the other. *)

Lemma replace_nth_last {A} (l : list A) (x y : A) :
  Routes.replace_nth (List.length l) y (l ++ [x]) = l ++ [y].
Proof. induction l; cbn; congruence. Qed.

Lemma play_alone env user req s runs :
  exists k,
    Routes.schedule
      (firstn k [ Routes.PlayArrives env user req;
                  Routes.SaveLands (List.length runs);
                  Routes.CountLands (List.length runs) ])
      {| Routes.state := s; Routes.running := runs |}
    = Some {| Routes.state := snd (Routes.post_play env user req s);
              Routes.running := runs |}.
Proof.
  unfold Routes.post_play.
  destruct (Routes.PlayBody.musicId req) as [[|c musicId]|] eqn:Hid;
    [exists 0%nat; reflexivity| |exists 0%nat; reflexivity].
  destruct (Routes.findById _ _) as [music|] eqn:Hfind;
    [|exists 0%nat; reflexivity].
  destruct (Music.isAvailableForBusiness music _) eqn:Havail;
    [|exists 0%nat; reflexivity].
  cbn [negb].
  destruct (Music.artist music) as [artist|] eqn:Hartist;
    [|exists 0%nat; reflexivity].
  assert (Hlookup : Routes.play_lookup user req s
                    = Routes.Found (String c musicId) music artist).
  { unfold Routes.play_lookup. now rewrite Hid, Hfind, Havail, Hartist. }
  destruct (Routes.save _ _ _) as [saved|] eqn:Hsave.
  - exists 3%nat. cbn [firstn Routes.schedule].
    unfold Routes.perform at 1. cbn [Routes.state Routes.running].
    rewrite Hlookup.
    unfold Routes.perform at 1. cbn [Routes.state Routes.running].
    rewrite nth_error_last, Hsave, replace_nth_last.
    unfold Routes.perform at 1. cbn [Routes.state Routes.running].
    rewrite nth_error_last, remove_nth_last.
    cbn [Routes.with_royaltyTransactions Routes.musics
         Routes.royaltyTransactions Routes.timers].
    destruct (Routes.findByIdAndUpdate _ _ _); reflexivity.
  - exists 2%nat. cbn [firstn Routes.schedule].
    unfold Routes.perform at 1. cbn [Routes.state Routes.running].
    rewrite Hlookup.
    unfold Routes.perform at 1. cbn [Routes.state Routes.running].
    rewrite nth_error_last, Hsave, remove_nth_last. reflexivity.
Qed.

Lemma schedule_app actions actions' sv :
  Routes.schedule (actions ++ actions') sv
  = match Routes.schedule actions sv with
    | Some sv' => Routes.schedule actions' sv'
    | None => None
    end.
Proof.
  revert sv. induction actions as [|a actions IH]; intro sv; cbn.
  - reflexivity.
  - destruct (Routes.perform a sv); [apply IH|reflexivity].
Qed.

(** The writes of a [bulkWrite], landing one after the other. *)
Lemma initiations_land env user paymentMethod transactionIds runs :
  forall todo s written,
    Mongo.bulkWrite (Routes.now env)
      (map (Ledger.initiate_op env (User._id user) paymentMethod) todo)
      (Routes.royaltyTransactions s)
    = Some written ->
    Routes.schedule
      (repeat (Routes.InitiationLands (List.length runs)) (List.length todo))
      {| Routes.state := s;
         Routes.running :=
           runs ++ [Routes.Initiating env user paymentMethod transactionIds
                                      todo] |}
    = Some {| Routes.state := Routes.with_royaltyTransactions written s;
              Routes.running :=
                runs ++ [Routes.Initiating env user paymentMethod
                                           transactionIds []] |}.
Proof.
  induction todo as [|t todo IH]; intros s written Hbulk.
  - cbn in Hbulk. injection Hbulk as <-. cbn. now destruct s.
  - cbn [map Mongo.bulkWrite Ledger.initiate_op Mongo.filter_id Mongo.update]
      in Hbulk.
    destruct (Mongo.updateOne _ _ _ _) as [collection1|] eqn:Hone;
      [|discriminate].
    cbn [List.length repeat Routes.schedule].
    unfold Routes.perform at 1. cbn [Routes.state Routes.running].
    rewrite nth_error_last, Hone, replace_nth_last.
    rewrite (IH (Routes.with_royaltyTransactions collection1 s) written Hbulk).
    reflexivity.
Qed.

Lemma payment_alone env user req s runs :
  exists k n,
    Routes.schedule
      (firstn k (Routes.PaymentArrives env user req
                 :: repeat (Routes.InitiationLands (List.length runs)) n
                 ++ [Routes.PaymentAnswers (List.length runs)]))
      {| Routes.state := s; Routes.running := runs |}
    = Some {| Routes.state := snd (Routes.post_process_payment env user req s);
              Routes.running := runs |}.
Proof.
  unfold Routes.post_process_payment.
  destruct (Routes.PaymentBody.transactionIds req) as [transactionIds|] eqn:Hids;
    [|exists 0%nat, 0%nat; reflexivity].
  destruct (Routes.find_pending _ _) as [[|t found]|] eqn:Hfind;
    [exists 0%nat, 0%nat; reflexivity| |exists 0%nat, 0%nat; reflexivity].
  cbn [List.length Nat.eqb]. rewrite payment_loop_spec.
  destruct (Routes.updateOk env) eqn:Hok;
    [|exists 0%nat, 0%nat; reflexivity].
  destruct (bulkWrite_initiate_total env (User._id user)
              match Routes.PaymentBody.paymentMethod req with
              | Some m => m
              | None => "bank_transfer"
              end (t :: found) (Routes.royaltyTransactions s))
    as [written Hbulk].
  rewrite Hbulk. cbn [snd].
  exists (S (S (List.length (t :: found)))), (List.length (t :: found)).
  rewrite firstn_all2
    by (cbn [List.length]; rewrite length_app, repeat_length; cbn; lia).
  cbn [Routes.schedule]. unfold Routes.perform at 1.
  cbn [Routes.state Routes.running]. rewrite Hids, Hfind, Hok.
  rewrite schedule_app, (initiations_land _ _ _ _ _ _ _ _ Hbulk).
  cbn [Routes.schedule]. unfold Routes.perform.
  cbn [Routes.state Routes.running].
  rewrite nth_error_last, remove_nth_last. reflexivity.
Qed.

Lemma includes_nodup ids id :
  Js.includes (nodup string_dec ids) id = Js.includes ids id.
Proof.
  destruct (Js.includes ids id) eqn:H.
  - apply includes_In. apply nodup_In. now apply includes_In.
  - apply not_true_iff_false. intro H'. apply includes_In, nodup_In in H'.
    apply includes_In in H'. congruence.
Qed.

(** The writes of an [updateMany], landing one document after the
    other, under the [_id] index. *)
Lemma completions_land env timer runs :
  forall todo s,
    NoDup todo ->
    Ledger.unique_ids (Routes.royaltyTransactions s) ->
    Routes.schedule
      (repeat (Routes.CompletionLands (List.length runs) 0) (List.length todo))
      {| Routes.state := s;
         Routes.running := runs ++ [Routes.Completing env timer todo] |}
    = Some {| Routes.state :=
                Routes.with_royaltyTransactions
                  (map (fun t =>
                          if Js.includes todo (RT._id t)
                          then Ledger.completed_by env
                                 (Routes.timer_user timer) t
                          else t)
                       (Routes.royaltyTransactions s))
                  s;
              Routes.running := runs ++ [Routes.Completing env timer []] |}.
Proof.
  induction todo as [|id todo IH]; intros s Hnd Huniq.
  - cbn. rewrite map_id. now destruct s.
  - inversion Hnd as [|? ? Hnotin Hnd']; subst.
    cbn [List.length repeat Routes.schedule].
    unfold Routes.perform at 1. cbn [Routes.state Routes.running].
    rewrite nth_error_last. cbn [nth_error Routes.remove_nth].
    rewrite (updateOne_map _ _ _
               (Ledger.completed_by env (Routes.timer_user timer)));
      [|intro t; apply applyUpdate_completion|exact Huniq].
    rewrite replace_nth_last, IH; [|exact Hnd'|].
    + cbn [Routes.with_royaltyTransactions Routes.royaltyTransactions
           Routes.musics Routes.timers].
      rewrite map_map.
      rewrite (map_ext _
                 (fun t =>
                    if Js.includes (id :: todo) (RT._id t)
                    then Ledger.completed_by env (Routes.timer_user timer) t
                    else t)); [reflexivity|].
      intro t. unfold Js.includes. cbn [existsb].
      destruct (String.eqb_spec (RT._id t) id) as [Hid|Hid]; cbn [orb];
        [|reflexivity].
      cbn [Ledger.completed_by RT._id RT.with_auditTrail
           RT.with_lmkCompliance RT.with_paymentInfo].
      rewrite Hid. fold (Js.includes todo id).
      destruct (Js.includes todo id) eqn:Hin; [|reflexivity].
      apply includes_In in Hin. contradiction.
    + cbn [Routes.with_royaltyTransactions Routes.royaltyTransactions].
      unfold Ledger.unique_ids in *. rewrite map_map.
      erewrite map_ext; [exact Huniq|].
      intro t. cbn. destruct (String.eqb _ _); reflexivity.
Qed.

Lemma callback_alone env n s s' runs :
  Ledger.unique_ids (Routes.royaltyTransactions s) ->
  Routes.fire_timer env n s = Some s' ->
  exists m,
    Routes.schedule
      (Routes.TimerFires env n
       :: repeat (Routes.CompletionLands (List.length runs) 0) m)
      {| Routes.state := s; Routes.running := runs |}
    = Some {| Routes.state := s'; Routes.running := runs |}.
Proof.
  intros Huniq. unfold Routes.fire_timer, Routes.payment_completion.
  cbn [Routes.schedule]. unfold Routes.perform at 1.
  cbn [Routes.state Routes.running].
  destruct (nth_error (Routes.timers s) n) as [timer|]; [|discriminate].
  intros [= <-]. cbn [Routes.royaltyTransactions Routes.musics Routes.timers].
  destruct (Routes.updateOk env); [|exists 0%nat; reflexivity].
  destruct (Js.castObjectIds (Routes.timer_transactionIds timer)) as [ids|];
    [|exists 0%nat; reflexivity].
  rewrite updateMany_completion.
  exists (List.length (nodup string_dec ids) + 1)%nat.
  rewrite repeat_app, schedule_app, completions_land;
    [|apply NoDup_nodup|exact Huniq].
  cbn [repeat Routes.schedule]. unfold Routes.perform.
  cbn [Routes.state Routes.running].
  rewrite nth_error_last, remove_nth_last.
  cbn [Routes.with_royaltyTransactions Routes.with_timers
       Routes.royaltyTransactions Routes.musics Routes.timers].
  rewrite (map_ext _
             (fun t =>
                if Js.includes ids (RT._id t)
                then Ledger.completed_by env (Routes.timer_user timer) t
                else t)); [reflexivity|].
  intro t. now rewrite includes_nodup.
Qed.


(** ** Recorded plays *)



Lemma findById_updateAnalytics_same env id collection music :
  Routes.findById id collection = Some music ->
  Routes.findById id (Routes.updateAnalytics env id collection)
  = Some (Music.with_analytics
            {| Music.totalPlays := Music.totalPlays (Music.analytics music) + 1;
               Music.businessPlays :=
                 Music.businessPlays (Music.analytics music) + 1;
               Music.lastPlayed := Some (Routes.now env) |}
            music).
Proof.
  unfold Routes.findById.
  induction collection as [|m collection IH]; cbn; [discriminate|].
  destruct (String.eqb (Music._id m) id) eqn:Hm.
  - intros [= <-]. cbn. now rewrite Hm.
  - intro H. cbn. rewrite Hm. auto.
Qed.

Lemma findById_updateAnalytics_other env id id' collection :
  id' <> id ->
  Routes.findById id' (Routes.updateAnalytics env id collection)
  = Routes.findById id' collection.
Proof.
  intro Hne. unfold Routes.findById.
  induction collection as [|m collection IH]; cbn; [reflexivity|].
  destruct (String.eqb_spec (Music._id m) id) as [Hm|Hm]; cbn.
  - destruct (String.eqb_spec (Music._id m) id') as [Hm'|Hm'];
      [congruence|reflexivity].
  - destruct (String.eqb (Music._id m) id'); [reflexivity|exact IH].
Qed.

(** X7.  A play answered 201 has added one transaction to the ledger
    and counted once on the work it names: looked up again, the work
    has its total and business plays one higher and its last play at
    the time of the run, and every other work is found as before.  A
    run answered otherwise leaves the catalog as it was. *)
Theorem play_counts_once :
  forall env user req s,
    let r := Routes.post_play env user req s in
    (Routes.statusCode (fst r) = 201 ->
     exists musicId music t,
       Routes.PlayBody.musicId req = Some musicId
       /\ Routes.findById musicId (Routes.musics s) = Some music
       /\ Routes.royaltyTransactions (snd r)
          = Routes.royaltyTransactions s ++ [t]
       /\ Routes.findById musicId (Routes.musics (snd r))
          = Some (Music.with_analytics
                    {| Music.totalPlays :=
                         Music.totalPlays (Music.analytics music) + 1;
                       Music.businessPlays :=
                         Music.businessPlays (Music.analytics music) + 1;
                       Music.lastPlayed := Some (Routes.now env) |}
                    music)
       /\ forall id, id <> musicId ->
            Routes.findById id (Routes.musics (snd r))
            = Routes.findById id (Routes.musics s))
    /\ (Routes.statusCode (fst r) <> 201 ->
        Routes.musics (snd r) = Routes.musics s).
Proof.
  intros env user req s r. subst r. unfold Routes.post_play.
  destruct (Routes.PlayBody.musicId req) as [[|c musicId]|];
    try (split; [discriminate|reflexivity]).
  destruct (Routes.findById _ _) as [music|] eqn:Hfind;
    [|split; [discriminate|reflexivity]].
  destruct (Music.isAvailableForBusiness music _);
    [|split; [discriminate|reflexivity]].
  cbn [negb].
  destruct (Music.artist music) as [artist|];
    [|split; [discriminate|reflexivity]].
  destruct (Routes.save _ _ _) as [saved|] eqn:Hsave;
    [|split; [discriminate|reflexivity]].
  cbn [Routes.musics Routes.royaltyTransactions Routes.timers].
  unfold Routes.findByIdAndUpdate.
  destruct (Routes.updateOk env); [|split; [discriminate|reflexivity]].
  cbn [fst snd Routes.statusCode Routes.musics Routes.royaltyTransactions].
  split; [intros _|congruence].
  apply save_inv in Hsave. destruct Hsave as (_ & _ & _ & ->).
  exists (String c musicId), music. eexists.
  split; [reflexivity|]. split; [exact Hfind|]. split; [reflexivity|].
  split.
  - now apply findById_updateAnalytics_same.
  - intros id Hne. now apply findById_updateAnalytics_other.
Qed.

Lemma play_counts_once_witness :
  exists music,
    Routes.findById Sample.work_id (Routes.musics Sample.played) = Some music
    /\ Music.totalPlays (Music.analytics music) = 1%Z.
Proof.
  destruct (proj1 (play_counts_once (Sample.env 1000 Sample.tx1) Sample.cafe
                     (Sample.play (Some "commercial")) Sample.catalog))
    as (musicId & music & t & Hid & Hfind & _ & Hcount & _).
  - vm_compute. reflexivity.
  - injection Hid as <-. injection Hfind as <-.
    eexists. split; [exact Hcount|]. reflexivity.
Defined.

(** X8.  When the transaction is saved and the update of the play
    counters is then refused, the handler answers the error of a failed
    recording although the transaction is in the ledger; the counters
    are not written. *)
Theorem play_recorded_despite_error :
  forall env user req s musicId music artist,
    Routes.PlayBody.musicId req = Some musicId ->
    musicId <> "" ->
    Routes.findById musicId (Routes.musics s) = Some music ->
    Music.isAvailableForBusiness music
      (User.businessType (User.businessInfo user)) = true ->
    Music.artist music = Some artist ->
    let t := Routes.new_RoyaltyTransaction env user req musicId music artist in
    RT.validate t = true ->
    ~ In (Routes.newObjectId env)
         (map RT._id (Routes.royaltyTransactions s)) ->
    Routes.saveOk env = true ->
    Routes.updateOk env = false ->
    Routes.post_play env user req s
    = (Routes.play_record_error,
       {| Routes.royaltyTransactions :=
            Routes.royaltyTransactions s
            ++ [RT.with_updatedAt (Routes.now env) t];
          Routes.musics := Routes.musics s;
          Routes.timers := Routes.timers s |}).
Proof.
  intros env user req s musicId music artist Hid Hne Hfind Havail Hartist t
         Hvalid Hfresh Hsave Hupdate.
  unfold Routes.post_play. rewrite Hid.
  destruct musicId as [|c musicId]; [contradiction|].
  rewrite Hfind, Havail. cbn [negb]. rewrite Hartist.
  fold t. unfold Routes.save. rewrite Hvalid, Hsave.
  replace (existsb _ (Routes.royaltyTransactions s)) with false.
  - cbn [andb negb Routes.musics]. unfold Routes.findByIdAndUpdate.
    rewrite Hupdate. reflexivity.
  - symmetry. apply not_true_iff_false. intro Hex.
    apply existsb_exists in Hex. destruct Hex as (x & Hx & Heq).
    apply String.eqb_eq in Heq. apply Hfresh.
    apply in_map_iff. exists x. split; [exact Heq|exact Hx].
Qed.

Lemma play_recorded_despite_error_witness :
  Routes.statusCode
    (fst (Routes.post_play
            (Trace.update_refused 1000 Sample.tx1)
            Sample.cafe (Sample.play (Some "commercial")) Sample.catalog))
  = 500%nat.
Proof.
  rewrite (play_recorded_despite_error
             (Trace.update_refused 1000 Sample.tx1)
             Sample.cafe (Sample.play (Some "commercial")) Sample.catalog
             Sample.work_id (Sample.work 50%float) Sample.artist_id
             eq_refl).
  - reflexivity.
  - discriminate.
  - reflexivity.
  - reflexivity.
  - reflexivity.
  - vm_compute. reflexivity.
  - cbn. tauto.
  - reflexivity.
  - reflexivity.
Defined.

(** ** Review of a work and its plays *)

Lemma findByIdAndUpdate_found id update collection music musics :
  Catalog.findByIdAndUpdate id update collection = (Some music, musics) ->
  exists before,
    Routes.findById id collection = Some before
    /\ music = update before
    /\ (Music._id (update before) = id ->
        Routes.findById id musics = Some music).
Proof.
  unfold Routes.findById. revert musics.
  induction collection as [|m collection IH]; cbn; intros musics H;
    [discriminate|].
  destruct (String.eqb (Music._id m) id) eqn:Hm.
  - injection H as <- <-. exists m. repeat split.
    intro Hid. cbn. apply String.eqb_eq in Hid. now rewrite Hid.
  - destruct (Catalog.findByIdAndUpdate id update collection)
      as [found rest] eqn:Hrest.
    injection H as -> <-.
    destruct (IH rest eq_refl) as (before & Hfind & Hmusic & Hlookup).
    exists before. repeat split; try assumption.
    intro Hid. cbn. rewrite Hm. auto.
Qed.






(** X10.  The approval of a work by an admin publishes it with its
    compliance approved and leaves its rates, rights holders, business
    types and counters as they were; the work is then available to a
    business exactly when it is active and its business types are
    unrestricted or hold the type of the business, and a play of it by
    such a business passes the checks of the play route: it is
    answered 201, or 500 when the recording itself fails. *)
Theorem approved_passes_gate :
  forall env id s music s',
    Catalog.put_approve env id s = (Catalog.Approved music, s') ->
    (exists before,
        Routes.findById id (Routes.musics s) = Some before
        /\ music = Catalog.set_review "published" "approved" before)
    /\ Routes.findById id (Routes.musics s') = Some music
    /\ Routes.royaltyTransactions s' = Routes.royaltyTransactions s
    /\ (forall businessType,
           Music.isAvailableForBusiness music businessType
           = Music.isActive music
             && (Nat.eqb (List.length (Music.allowedBusinessTypes music)) 0
                 || Js.includes_undefined (Music.allowedBusinessTypes music)
                                          businessType))
    /\ (forall env' user req,
           Routes.PlayBody.musicId req = Some id ->
           id <> "" ->
           Music.isAvailableForBusiness music
             (User.businessType (User.businessInfo user)) = true ->
           In (Routes.statusCode (fst (Routes.post_play env' user req s')))
              [201; 500]%nat).
Proof.
  intros env id s music s' Happrove.
  unfold Catalog.put_approve in Happrove.
  destruct (Routes.updateOk env); [|discriminate].
  destruct (Catalog.findByIdAndUpdate _ _ _) as [[found|] musics] eqn:Hupd;
    [|discriminate].
  injection Happrove as <- <-.
  destruct (findByIdAndUpdate_found _ _ _ _ _ Hupd)
    as (before & Hfind & -> & Hlookup).
  assert (Hbefore : Music._id before = id).
  { unfold Routes.findById in Hfind. apply find_some in Hfind.
    now apply String.eqb_eq. }
  specialize (Hlookup Hbefore).
  split; [exists before; split; [exact Hfind|reflexivity]|].
  split; [exact Hlookup|]. split; [reflexivity|]. split.
  - intro businessType. unfold Music.isAvailableForBusiness.
    cbn [Catalog.set_review Music.status Music.isActive Music.lmkInfo
         Music.complianceStatus Music.allowedBusinessTypes].
    rewrite !String.eqb_refl. cbn [negb orb].
    destruct (Music.isActive before); reflexivity.
  - intros env' user req Hid Hne Havail.
    unfold Routes.post_play. rewrite Hid.
    destruct id as [|c id]; [contradiction|].
    cbn [Catalog.with_musics Routes.musics]. rewrite Hlookup, Havail.
    cbn [negb].
    destruct (Music.artist _); [|cbn; tauto].
    destruct (Routes.save _ _ _); [|cbn; tauto].
    destruct (Routes.findByIdAndUpdate _ _ _); cbn; tauto.
Qed.

Lemma approved_passes_gate_witness :
  Routes.findById Sample.work_id
    (Routes.musics
       (snd (Catalog.put_approve (Sample.env 500 Sample.unknown_id)
               Sample.work_id
               (snd (Catalog.put_reject (Sample.env 400 Sample.unknown_id)
                       Sample.work_id Sample.catalog)))))
  = Some (Sample.work 50%float).
Proof.
  refine (proj1 (proj2
            (approved_passes_gate (Sample.env 500 Sample.unknown_id)
               Sample.work_id
               (snd (Catalog.put_reject (Sample.env 400 Sample.unknown_id)
                       Sample.work_id Sample.catalog))
               (Sample.work 50%float)
               (snd (Catalog.put_approve (Sample.env 500 Sample.unknown_id)
                       Sample.work_id
                       (snd (Catalog.put_reject
                               (Sample.env 400 Sample.unknown_id)
                               Sample.work_id Sample.catalog))))
               _))).
  vm_compute. reflexivity.
Defined.

(** X11.  The library query and the model's availability check agree:
    with a business type given, the query of GET / matches a work
    exactly when [isAvailableForBusiness] accepts it for that type and
    the other filters of the request do; with none given, exactly when
    the work is among the compliant ones and the other filters accept
    it. *)
Theorem library_query_available :
  forall (other_filters : Music.Doc -> bool) (m : Music.Doc),
    (forall businessType,
        businessType <> "" ->
        Catalog.library_query other_filters (Some businessType) m
        = Music.isAvailableForBusiness m (Some businessType)
          && other_filters m)
    /\ (forall collection,
           In m (filter (Catalog.library_query other_filters None) collection)
           <-> In m (Catalog.findCompliantMusic collection)
               /\ other_filters m = true).
Proof.
  intros other_filters m. split.
  - intros businessType Hne.
    unfold Catalog.library_query, Music.isAvailableForBusiness.
    destruct businessType as [|c businessType]; [contradiction|].
    cbn [Js.not_string].
    destruct (Music.isActive m), (String.eqb (Music.status m) "published"),
      (String.eqb (Music.complianceStatus (Music.lmkInfo m)) "approved");
      reflexivity.
  - intro collection. unfold Catalog.findCompliantMusic.
    rewrite !filter_In. unfold Catalog.library_query. cbn [Js.not_string].
    rewrite andb_true_r, andb_true_iff. tauto.
Qed.

(** ** Authorization *)

Lemma requireBusinessLicense_next user :
  Auth.requireBusinessLicense user = Auth.Next
  <-> exists account,
        user = Some account
        /\ Auth.role account = "business"
        /\ Auth.licenseStatus account = Some "active".
Proof.
  unfold Auth.requireBusinessLicense, Auth.hasValidLicense. split.
  - destruct user as [account|]; [|discriminate].
    destruct (String.eqb (Auth.role account) "business") eqn:Hrole;
      cbn [negb]; [|discriminate].
    destruct (Auth.licenseStatus account) as [status|] eqn:Hlicense;
      cbn [negb]; [|discriminate].
    destruct (String.eqb status "active") eqn:Hstatus;
      cbn [negb]; [|discriminate].
    intros _. apply String.eqb_eq in Hrole, Hstatus. subst status.
    exists account. split; [reflexivity|]. split; [exact Hrole|exact Hlicense].
  - intros (account & -> & Hrole & Hlicense).
    rewrite Hrole, Hlicense. reflexivity.
Qed.

Lemma requireRole_next roles user :
  Auth.requireRole roles user = Auth.Next
  <-> exists account,
        user = Some account
        /\ In (Auth.role account)
              match roles with
              | Auth.AnyRole rs => rs
              | Auth.OneRole r => [r]
              end.
Proof.
  unfold Auth.requireRole. split.
  - destruct user as [account|]; [|discriminate].
    destruct (Js.includes _ _) eqn:Hin; [|discriminate].
    intros _. exists account. split; [reflexivity|].
    now apply includes_In.
  - intros (account & -> & Hin). apply includes_In in Hin.
    now rewrite Hin.
Qed.

(** X12.  The play route behind its middleware: the middleware lets a
    request through exactly for a user whose role is business and
    whose license is active; any other request is answered without the
    state being touched, and every transaction the route records has
    such a user as its business. *)
Theorem play_needs_license :
  forall env user req s,
    let licensed :=
      exists account,
        user = Some account
        /\ Auth.role account = "business"
        /\ Auth.licenseStatus account = Some "active" in
    (Auth.requireBusinessLicense user = Auth.Next <-> licensed)
    /\ (~ licensed ->
        exists d, Auth.play env user req s = (Auth.Denied d, s)
                  /\ Auth.status d = 403%nat)
    /\ (forall t,
           Routes.royaltyTransactions (snd (Auth.play env user req s))
           = Routes.royaltyTransactions s ++ [t] ->
           exists account,
             user = Some account
             /\ Auth.role account = "business"
             /\ Auth.licenseStatus account = Some "active"
             /\ RT.business t = User._id (Auth.doc account)).
Proof.
  intros env user req s licensed.
  pose proof (requireBusinessLicense_next user) as Hnext. fold licensed in Hnext.
  split; [exact Hnext|]. split.
  - intro Hnot. unfold Auth.play.
    destruct (Auth.requireBusinessLicense user) as [|d] eqn:Hm.
    + destruct Hnot. now apply Hnext.
    + exists d. split; [reflexivity|].
      unfold Auth.requireBusinessLicense in Hm.
      destruct user as [account|]; [|injection Hm as <-; reflexivity].
      destruct (negb (String.eqb _ _));
        [injection Hm as <-; reflexivity|].
      destruct (negb (Auth.hasValidLicense account));
        [injection Hm as <-; reflexivity|discriminate].
  - intros t Hrec. unfold Auth.play in Hrec.
    destruct (Auth.requireBusinessLicense user) as [|d] eqn:Hm.
    + destruct (proj1 Hnext eq_refl) as (account & -> & Hrole & Hlicense).
      exists account. repeat split; try assumption.
      destruct (Routes.post_play env (Auth.doc account) req s)
        as [r s'] eqn:Hplay.
      cbn [snd] in Hrec.
      assert (Hrec' :
        Routes.royaltyTransactions
          (snd (Routes.post_play env (Auth.doc account) req s))
        = Routes.royaltyTransactions s ++ [t]) by now rewrite Hplay.
      destruct (post_play_ledger env (Auth.doc account) req s)
        as [[Hsame _] | (musicId & music & artist & _ & _ & _ & _ & Hsave & _)].
      * rewrite Hsame in Hrec'. destruct (app_one_neq _ _ Hrec').
      * apply save_inv in Hsave. destruct Hsave as (_ & _ & _ & Hsaved).
        rewrite Hsaved in Hrec'. apply app_inv_head in Hrec'.
        injection Hrec' as <-. reflexivity.
    + cbn [snd] in Hrec. destruct (app_one_neq _ _ Hrec).
Qed.

(** X13.  The routes behind [requireRole('admin')]: the middleware
    lets a request through exactly for a user whose role is among the
    required ones; a request without user is answered 401 and one of
    another role 403, and the payment, approval and rejection routes
    then leave the state untouched. *)
Theorem admin_routes_need_admin :
  forall env user s,
    (forall roles,
        Auth.requireRole roles user = Auth.Next
        <-> exists account,
              user = Some account
              /\ In (Auth.role account)
                    match roles with
                    | Auth.AnyRole rs => rs
                    | Auth.OneRole r => [r]
                    end)
    /\ ((forall account, user = Some account -> Auth.role account <> "admin") ->
        exists d,
          Auth.status d = match user with Some _ => 403 | None => 401 end
          /\ (forall req,
                 Auth.process_payment env user req s = (Auth.Denied d, s))
          /\ (forall id, Auth.approve env user id s = (Auth.Denied d, s))
          /\ (forall id, Auth.reject env user id s = (Auth.Denied d, s))).
Proof.
  intros env user s. split; [intro roles; apply requireRole_next|].
  intro Hnot.
  unfold Auth.process_payment, Auth.approve, Auth.reject.
  destruct (Auth.requireRole (Auth.OneRole "admin") user) as [|d] eqn:Hm.
  - apply requireRole_next in Hm. destruct Hm as (account & Huser & [Hin|[]]).
    destruct (Hnot account Huser). now symmetry.
  - exists d. split; [|repeat split].
    unfold Auth.requireRole in Hm.
    destruct user as [account|]; [|injection Hm as <-; reflexivity].
    destruct (negb _); [injection Hm as <-; reflexivity|discriminate].
Qed.

Lemma play_needs_license_witness :
  exists d,
    Auth.play (Sample.env 1000 Sample.tx1) (Some Accounts.suspended)
      (Sample.play None) Sample.catalog
    = (Auth.Denied d, Sample.catalog)
    /\ Auth.status d = 403%nat.
Proof.
  refine (proj1 (proj2 (play_needs_license (Sample.env 1000 Sample.tx1)
                          (Some Accounts.suspended) (Sample.play None)
                          Sample.catalog)) _).
  intros (account & Huser & _ & Hlicense).
  injection Huser as <-. discriminate.
Defined.

Lemma admin_routes_need_admin_witness :
  exists d,
    Auth.status d = 403%nat
    /\ (forall req,
           Auth.process_payment (Sample.env 2000 Sample.unknown_id)
             (Some Accounts.cafe) req Sample.played
           = (Auth.Denied d, Sample.played)).
Proof.
  destruct (proj2 (admin_routes_need_admin
                     (Sample.env 2000 Sample.unknown_id)
                     (Some Accounts.cafe) Sample.played))
    as (d & Hstatus & Hpay & _).
  - intros account [= <-]. discriminate.
  - exists d. split; assumption.
Defined.

(** ** The rate limiter *)

Lemma key_eqb_eq (a b : RateLimit.Key) :
  RateLimit.key_eqb a b = true <-> a = b.
Proof.
  destruct a as [x|], b as [y|]; cbn; try (split; congruence).
  rewrite String.eqb_eq. split; congruence.
Qed.

Lemma key_eqb_refl (a : RateLimit.Key) : RateLimit.key_eqb a a = true.
Proof. now apply key_eqb_eq. Qed.

Lemma get_set_same key times requests :
  RateLimit.get key (RateLimit.set key times requests) = Some times.
Proof.
  induction requests as [|[k old] requests IH]; cbn.
  - now rewrite key_eqb_refl.
  - destruct (RateLimit.key_eqb k key) eqn:Hk; cbn; now rewrite Hk.
Qed.

Lemma get_set_other key key' times requests :
  key' <> key ->
  RateLimit.get key' (RateLimit.set key times requests)
  = RateLimit.get key' requests.
Proof.
  intro Hne. induction requests as [|[k old] requests IH]; cbn.
  - destruct (RateLimit.key_eqb key key') eqn:Hk; [|reflexivity].
    apply key_eqb_eq in Hk. congruence.
  - destruct (RateLimit.key_eqb k key) eqn:Hk; cbn.
    + apply key_eqb_eq in Hk. subst k.
      destruct (RateLimit.key_eqb key key') eqn:Hk'; [|reflexivity].
      apply key_eqb_eq in Hk'. congruence.
    + now rewrite IH.
Qed.

Lemma passed_app key log entry :
  RateLimit.passed key (log ++ [entry])
  = RateLimit.passed key log ++ RateLimit.passed key [entry].
Proof. unfold RateLimit.passed. now rewrite flat_map_app. Qed.

Lemma passed_one key time :
  RateLimit.passed key [(key, time, RateLimit.Next)] = [time].
Proof. cbn. now rewrite key_eqb_refl. Qed.

Lemma recent_recent since since' times :
  (since' <= since)%Z ->
  RateLimit.recent since (RateLimit.recent since' times)
  = RateLimit.recent since times.
Proof.
  intro Hle. unfold RateLimit.recent.
  induction times as [|t times IH]; cbn; [reflexivity|].
  destruct (Z.ltb_spec since' t); cbn; rewrite IH; [reflexivity|].
  destruct (Z.ltb_spec since t); [lia|reflexivity].
Qed.

Lemma recent_length since times :
  (List.length (RateLimit.recent since times) <= List.length times)%nat.
Proof. apply filter_length_le. Qed.

(** One run of the middleware keeps the Map in agreement with the log,
    and lets the request through exactly when fewer than the maximum
    were let through in the window before it. *)
Lemma rateLimitByUser_agrees maxRequests windowMs last now req log requests :
  RateLimit.agrees maxRequests windowMs last log requests ->
  (last <= now)%Z ->
  let key := Js.or_string (RateLimit.user_id req) (RateLimit.ip req) in
  let r := RateLimit.rateLimitByUser maxRequests windowMs now req requests in
  RateLimit.agrees maxRequests windowMs now
    (log ++ [(key, now, fst r)]) (snd r)
  /\ (fst r = RateLimit.Next
      <-> (Z.of_nat (List.length
                       (RateLimit.recent (now - windowMs)
                                         (RateLimit.passed key log)))
           < maxRequests)%Z).
Proof.
  intros Hagrees Hlast key r. subst r.
  unfold RateLimit.rateLimitByUser. fold key.
  set (kept := match RateLimit.get key requests with
               | Some times => RateLimit.recent (now - windowMs) times
               | None => []
               end).
  assert (Hset :
    match RateLimit.get key requests with
    | Some times =>
        RateLimit.set key
          (filter (fun time => (now - windowMs <? time)%Z) times) requests
    | None => RateLimit.set key [] requests
    end = RateLimit.set key kept requests)
    by (subst kept; destruct (RateLimit.get key requests); reflexivity).
  rewrite Hset, get_set_same.
  assert (Hkept :
    (kept = [] \/ (Z.of_nat (List.length kept) <= maxRequests)%Z)
    /\ forall since, (now - windowMs <= since)%Z ->
         RateLimit.recent since kept
         = RateLimit.recent since (RateLimit.passed key log)).
  { specialize (Hagrees key). subst kept.
    destruct (RateLimit.get key requests) as [times|].
    - destruct Hagrees as [Hsize Hsame]. split.
      + destruct Hsize as [->|Hsize]; [now left|right].
        pose proof (recent_length (now - windowMs) times). lia.
      + intros since Hsince. rewrite recent_recent by exact Hsince.
        apply Hsame. lia.
    - rewrite Hagrees. split; [now left|reflexivity]. }
  destruct Hkept as [Hsize Hsame].
  assert (Hcount :
    List.length (RateLimit.recent (now - windowMs) (RateLimit.passed key log))
    = List.length kept).
  { rewrite <- Hsame by lia. subst kept.
    destruct (RateLimit.get key requests); [|reflexivity].
    now rewrite recent_recent by lia. }
  rewrite Hcount.
  destruct (Z.leb_spec maxRequests (Z.of_nat (List.length kept)))
    as [Hfull|Hroom]; cbn [fst snd].
  - split; [|split; [discriminate|lia]].
    intro key'. destruct (RateLimit.key_eqb key key') eqn:Hk.
    + apply key_eqb_eq in Hk. subst key'. rewrite get_set_same.
      split; [exact Hsize|]. intros since Hsince.
      rewrite passed_app. cbn. rewrite app_nil_r. now apply Hsame.
    + assert (Hne : key' <> key)
        by (intros ->; now rewrite key_eqb_refl in Hk).
      rewrite get_set_other by exact Hne.
      rewrite passed_app. cbn. rewrite app_nil_r.
      specialize (Hagrees key').
      destruct (RateLimit.get key' requests); [|exact Hagrees].
      destruct Hagrees as [Hsize' Hsame']. split; [exact Hsize'|].
      intros since Hsince. apply Hsame'. lia.
  - split; [|split; [lia|reflexivity]].
    intro key'. destruct (RateLimit.key_eqb key key') eqn:Hk.
    + apply key_eqb_eq in Hk. subst key'. rewrite get_set_same.
      split.
      * right. rewrite length_app. cbn. lia.
      * intros since Hsince. rewrite passed_app.
        rewrite passed_one.
        unfold RateLimit.recent in *.
        rewrite !filter_app. f_equal. now apply Hsame.
    + assert (Hne : key' <> key)
        by (intros ->; now rewrite key_eqb_refl in Hk).
      rewrite !get_set_other by exact Hne.
      rewrite passed_app. cbn. rewrite Hk, app_nil_r.
      specialize (Hagrees key').
      destruct (RateLimit.get key' requests); [|exact Hagrees].
      destruct Hagrees as [Hsize' Hsame']. split; [exact Hsize'|].
      intros since Hsince. apply Hsame'. lia.
Qed.

Lemma split_last {A} (log before after : list A) (entry x : A) :
  log ++ [entry] = before ++ x :: after ->
  (after = [] /\ before = log /\ x = entry)
  \/ exists after', after = after' ++ [entry] /\ log = before ++ x :: after'.
Proof.
  intro H. destruct after as [|a after] using rev_ind.
  - left. apply app_inj_tail in H. destruct H. auto.
  - right. exists after. clear IHafter.
    rewrite app_comm_cons, app_assoc in H.
    apply app_inj_tail in H. destruct H as [-> ->]. auto.
Qed.

Lemma serve_exact maxRequests windowMs arrivals :
  forall last log requests,
    RateLimit.agrees maxRequests windowMs last log requests ->
    RateLimit.in_order last arrivals ->
    RateLimit.exact maxRequests windowMs log ->
    RateLimit.exact maxRequests windowMs
      (fst (RateLimit.serve maxRequests windowMs arrivals log requests)).
Proof.
  induction arrivals as [|[now req] arrivals IH];
    intros last log requests Hagrees Horder Hexact; [exact Hexact|].
  cbn [RateLimit.serve]. destruct Horder as [Hlast Horder].
  destruct (rateLimitByUser_agrees maxRequests windowMs last now req log
              requests Hagrees Hlast) as [Hagrees' Hiff].
  destruct (RateLimit.rateLimitByUser maxRequests windowMs now req requests)
    as [outcome requests'].
  cbn [fst snd] in Hagrees', Hiff.
  apply (IH now); [exact Hagrees'|exact Horder|].
  intros before key time outcome' after Hlog.
  apply split_last in Hlog.
  destruct Hlog as [(-> & -> & [= -> -> ->]) | (after' & -> & ->)].
  - exact Hiff.
  - eapply Hexact. reflexivity.
Qed.

(** X14.  The rate limiter is exact over requests that arrive in the
    order of their times, from an empty Map: a request is let through
    exactly when fewer than [maxRequests] requests of its key were let
    through in the [windowMs] before it; so the requests of a key let
    through within any such window, the latest included, are never
    more than [maxRequests]. *)
Theorem rate_limit_exact :
  forall maxRequests windowMs from arrivals,
    RateLimit.in_order from arrivals ->
    forall before key time outcome after,
      fst (RateLimit.serve maxRequests windowMs arrivals [] [])
      = before ++ (key, time, outcome) :: after ->
      (outcome = RateLimit.Next
       <-> (Z.of_nat (List.length
                        (RateLimit.recent (time - windowMs)
                                          (RateLimit.passed key before)))
            < maxRequests)%Z)
      /\ (outcome = RateLimit.Next ->
          (Z.of_nat (List.length
                       (RateLimit.recent (time - windowMs)
                          (RateLimit.passed key
                             (before ++ [(key, time, outcome)]))))
           <= maxRequests)%Z).
Proof.
  intros maxRequests windowMs from arrivals Horder
         before key time outcome after Hlog.
  assert (Hiff : outcome = RateLimit.Next
                 <-> (Z.of_nat (List.length
                                  (RateLimit.recent (time - windowMs)
                                     (RateLimit.passed key before)))
                      < maxRequests)%Z).
  { eapply (serve_exact maxRequests windowMs arrivals from [] []);
      [|exact Horder| |exact Hlog].
    - intro k. reflexivity.
    - intros b k t o a Hnil. destruct b; discriminate. }
  split; [exact Hiff|].
  intro Hnext. apply Hiff in Hnext.
  rewrite passed_app. unfold RateLimit.recent in *. rewrite filter_app.
  rewrite length_app.
  pose proof (filter_length_le (fun t => (time - windowMs <? t)%Z)
                (RateLimit.passed key [(key, time, outcome)])) as Hone.
  assert (List.length (RateLimit.passed key [(key, time, outcome)]) <= 1)%nat.
  { cbn. destruct outcome; [|cbn; lia].
    destruct (RateLimit.key_eqb key key); cbn; lia. }
  lia.
Qed.

Lemma arrivals_in_order : RateLimit.in_order 0 Accounts.arrivals.
Proof. cbn. lia. Defined.

(** With at most two requests in three seconds, the second request of
    the address is let through, and the third, two seconds after the
    first, is refused. *)
Lemma rate_limit_exact_witness :
  fst (RateLimit.serve 2 3000 Accounts.arrivals [] [])
  = [(Some "10.0.0.7", 1000%Z, RateLimit.Next);
     (Some "10.0.0.7", 2000%Z, RateLimit.Next);
     (Some "10.0.0.7", 3000%Z, RateLimit.TooManyRequests 3)]
  /\ (Z.of_nat (List.length
                  (RateLimit.recent (2000 - 3000)
                     (RateLimit.passed (Some "10.0.0.7")
                        ([(Some "10.0.0.7", 1000%Z, RateLimit.Next)]
                         ++ [(Some "10.0.0.7", 2000%Z, RateLimit.Next)]))))
      <= 2)%Z.
Proof.
  split; [reflexivity|].
  exact (proj2 (rate_limit_exact 2 3000 0 Accounts.arrivals
                  arrivals_in_order
                  [(Some "10.0.0.7", 1000%Z, RateLimit.Next)]
                  (Some "10.0.0.7") 2000%Z RateLimit.Next
                  [(Some "10.0.0.7", 3000%Z, RateLimit.TooManyRequests 3)]
                  eq_refl) eq_refl).
Defined.
(** ** Summaries and reports *)







(** What [$addToSet] gathers of a field that has one value only. *)
Lemma addToSet_one (a : Js.ObjectId) (ids : list Js.ObjectId) :
  ids <> [] -> (forall x, In x ids -> x = a) -> Reports.addToSet ids = [a].
Proof.
  unfold Reports.addToSet.
  induction ids as [|x ids IH]; intros Hne Hall; [contradiction|].
  assert (Hx : x = a) by (apply Hall; left; reflexivity). subst x.
  simpl. destruct (in_dec string_dec a ids) as [Hin|Hin].
  - apply IH; [intro He; subst ids; exact Hin|].
    intros y Hy. apply Hall. right. exact Hy.
  - destruct ids as [|y ids]; [reflexivity|].
    exfalso. apply Hin. left. apply Hall. right. left. reflexivity.
Qed.

Lemma addToSet_bounds (ids : list Js.ObjectId) :
  ids <> [] ->
  1 <= List.length (Reports.addToSet ids) <= List.length ids.
Proof.
  intro Hne. unfold Reports.addToSet. split.
  - destruct ids as [|x ids]; [contradiction|].
    assert (Hin : In x (nodup string_dec (x :: ids)))
      by (apply nodup_In; left; reflexivity).
    destruct (nodup string_dec (x :: ids)); [contradiction|simpl; lia].
  - clear Hne. induction ids as [|x ids IH]; simpl; [lia|].
    destruct (in_dec string_dec x ids); simpl; lia.
Qed.

(** X16.  [getRoyaltySummary] gives no row when no transaction of the
    window passes the filters, and one row otherwise: its transactions
    and plays are both the number of matching transactions, each count of
    distinct businesses, artists and songs is between one and that
    number, and a filter on one business, as GET /summary gives, makes
    the count of businesses one. *)
Theorem royalty_summary_counts :
  forall (sum avg : list float -> float) (startDate endDate : Js.Date)
         (filters : RT.Doc -> bool) (collection : list RT.Doc),
    let matched :=
      filter (fun t => Reports.in_window startDate endDate t && filters t)
             collection in
    (Reports.getRoyaltySummary sum avg startDate endDate filters collection
     = [] <-> matched = [])
    /\ (matched <> [] ->
        exists row,
          Reports.getRoyaltySummary sum avg startDate endDate filters
                                    collection = [row]
          /\ Reports.Summary.totalTransactions row = List.length matched
          /\ Reports.Summary.totalPlays row = List.length matched
          /\ 1 <= Reports.Summary.uniqueBusinessCount row <= List.length matched
          /\ 1 <= Reports.Summary.uniqueArtistCount row <= List.length matched
          /\ 1 <= Reports.Summary.uniqueSongCount row <= List.length matched
          /\ forall business,
               (forall t, filters t = true -> RT.business t = business) ->
               Reports.Summary.uniqueBusinessCount row = 1).
Proof.
  intros sum avg startDate endDate filters collection matched.
  unfold Reports.getRoyaltySummary. fold matched.
  destruct matched as [|t ts] eqn:Hm.
  - split; [tauto|]. intro H. contradiction.
  - split; [split; discriminate|]. intros _. eexists.
    split; [reflexivity|]. cbn [Reports.Summary.totalTransactions
      Reports.Summary.totalPlays Reports.Summary.uniqueBusinessCount
      Reports.Summary.uniqueArtistCount Reports.Summary.uniqueSongCount].
    split; [reflexivity|]. split; [reflexivity|].
    assert (Hb := addToSet_bounds (map RT.business (t :: ts))).
    assert (Ha := addToSet_bounds (map RT.artist (t :: ts))).
    assert (Hs := addToSet_bounds (map RT.music (t :: ts))).
    rewrite length_map in Hb, Ha, Hs.
    split; [apply Hb; discriminate|]. split; [apply Ha; discriminate|].
    split; [apply Hs; discriminate|].
    intros business Hone.
    rewrite (addToSet_one business); [reflexivity|discriminate|].
    intros x Hx. apply in_map_iff in Hx. destruct Hx as [u [<- Hu]].
    apply Hone. rewrite <- Hm in Hu. unfold matched in Hu.
    apply filter_In in Hu. destruct Hu as [_ Hu].
    apply andb_true_iff in Hu. tauto.
Qed.










